(** * iptables_exporter: the iptables-save parser

    A shallow embedding of [iptables/parser.go] and a verification of the
    parser's error policy, flush discipline, rule de-duplication and counter
    parsing.

    Go strings are byte sequences: they are modelled as [string], whose
    characters are the 256 values of [ascii].  Go maps are modelled as
    [gmap]; a map-typed value is an [option], [None] being the nil map, since
    the source distinguishes a nil map from an allocated one (reading a nil
    map is fine, writing to it panics).  [uint64] and [int] values are
    integers of [Z] with the wrap-around written out where the source does
    arithmetic on them. *)

From Stdlib Require Import ZArith Ascii String List Lia Bool.
From Stdlib Require DecimalString.
From stdpp Require Import base option list strings gmap fin_maps.

Local Open Scope string_scope.
Local Open Scope Z_scope.

(** ** The Go standard library functions the parser calls *)

Module strings.

(** strings.HasPrefix *)
Fixpoint HasPrefix (s prefix : string) {struct prefix} : bool :=
  match prefix, s with
  | EmptyString, _ => true
  | String p prefix', String c s' => Ascii.eqb c p && HasPrefix s' prefix'
  | String _ _, EmptyString => false
  end.

Fixpoint drop (n : nat) (s : string) : string :=
  match n, s with
  | O, _ => s
  | S n', String _ s' => drop n' s'
  | S _, EmptyString => EmptyString
  end.

(** strings.TrimPrefix *)
Definition TrimPrefix (s prefix : string) : string :=
  if HasPrefix s prefix then drop (String.length prefix) s else s.

Definition byte_of (c : ascii) : Z := Z.of_N (N_of_ascii c).

(** The six ASCII characters of unicode.IsSpace: tab, line feed, vertical
    tab, form feed, carriage return and space. *)
Definition asciiSpace (c : ascii) : bool :=
  let b := byte_of c in ((9 <=? b) && (b <=? 13)) || (b =? 32).

(** Width in bytes of the white-space rune (unicode.IsSpace) that starts
    [s], or 0 when [s] does not start with one.  Beyond ASCII these are
    U+0085 and U+00A0 (two bytes in UTF-8) and U+1680, U+2000..U+200A,
    U+2028, U+2029, U+202F, U+205F and U+3000 (three bytes).  A lead byte
    is never part of another rune, so looking for the encodings at a byte
    position agrees with Go's rune-by-rune decoding. *)
Definition spaceWidth (s : string) : nat :=
  match s with
  | EmptyString => 0%nat
  | String c0 s0 =>
      if asciiSpace c0 then 1%nat
      else
        match s0 with
        | EmptyString => 0%nat
        | String c1 s1 =>
            let b0 := byte_of c0 in
            let b1 := byte_of c1 in
            if (b0 =? 194) && ((b1 =? 133) || (b1 =? 160)) then 2%nat
            else
              match s1 with
              | EmptyString => 0%nat
              | String c2 _ =>
                  let b2 := byte_of c2 in
                  if (b0 =? 225) && (b1 =? 154) && (b2 =? 128) then 3%nat
                  else if (b0 =? 226) && (b1 =? 128)
                          && (((128 <=? b2) && (b2 <=? 138))
                              || (b2 =? 168) || (b2 =? 169) || (b2 =? 175))
                  then 3%nat
                  else if (b0 =? 226) && (b1 =? 129) && (b2 =? 159) then 3%nat
                  else if (b0 =? 227) && (b1 =? 128) && (b2 =? 128) then 3%nat
                  else 0%nat
              end
        end
  end.

(** Drops the white-space runes at the start of [s]; [skip] bytes of a
    rune already recognised are still to be dropped. *)
Fixpoint trimLeft (skip : nat) (s : string) : string :=
  match s with
  | EmptyString => EmptyString
  | String _ s' =>
      match skip with
      | S k => trimLeft k s'
      | O =>
          match spaceWidth s with
          | O => s
          | S k => trimLeft k s'
          end
      end
  end.

Fixpoint rev_onto (s acc : string) : string :=
  match s with
  | EmptyString => acc
  | String c s' => rev_onto s' (String c acc)
  end.

Definition rev (s : string) : string := rev_onto s EmptyString.

(** The same widths, read backwards from the end of a string: the argument
    is a reversed string. *)
Definition spaceWidthRev (r : string) : nat :=
  match r with
  | EmptyString => 0%nat
  | String c0 r0 =>
      if asciiSpace c0 then 1%nat
      else
        match r0 with
        | EmptyString => 0%nat
        | String c1 r1 =>
            if (spaceWidth (String c1 (String c0 EmptyString)) =? 2)%nat then 2%nat
            else
              match r1 with
              | EmptyString => 0%nat
              | String c2 _ =>
                  if (spaceWidth (String c2 (String c1 (String c0 EmptyString)))
                      =? 3)%nat
                  then 3%nat else 0%nat
              end
        end
  end.

Fixpoint trimLeftRev (skip : nat) (r : string) : string :=
  match r with
  | EmptyString => EmptyString
  | String _ r' =>
      match skip with
      | S k => trimLeftRev k r'
      | O =>
          match spaceWidthRev r with
          | O => r
          | S k => trimLeftRev k r'
          end
      end
  end.

(** strings.TrimSpace: leading white space is removed, then trailing. *)
Definition TrimSpace (s : string) : string :=
  rev (trimLeftRev 0 (rev (trimLeft 0 s))).

(** strings.Fields: the maximal runs of bytes between white-space runes.
    [cur] is the field being read, reversed. *)
Fixpoint fieldsFrom (skip : nat) (cur : string) (s : string) : list string :=
  let close := match cur with EmptyString => [] | _ => [rev cur] end in
  match s with
  | EmptyString => close
  | String c s' =>
      match skip with
      | S k => fieldsFrom k cur s'
      | O =>
          match spaceWidth s with
          | O => fieldsFrom 0 (String c cur) s'
          | S k => close ++ fieldsFrom k EmptyString s'
          end
      end
  end.

Definition Fields (s : string) : list string := fieldsFrom 0 EmptyString s.

(** strings.Join *)
Fixpoint Join (elems : list string) (sep : string) : string :=
  match elems with
  | [] => EmptyString
  | [e] => e
  | e :: rest => e ++ sep ++ Join rest sep
  end.

End strings.

Module slices.

(** slices.ContainsFunc *)
Definition ContainsFunc {A} (s : list A) (f : A -> bool) : bool := existsb f s.

End slices.


Module strconv.

Definition maxUint64 : Z := 2 ^ 64 - 1.

Inductive NumError := ErrSyntax | ErrRange.

Definition isDigit (c : ascii) : bool :=
  let b := strings.byte_of c in (48 <=? b) && (b <=? 57).

Definition digitVal (c : ascii) : Z := strings.byte_of c - 48.

(** The loop of strconv.ParseUint(s, 10, 64) over the bytes of [s], with
    the accumulator [n] a uint64: [n >= cutoff] means that [n * 10] would
    overflow, and [n1 < n] detects the wrap-around of the addition. *)
Fixpoint parseLoop (s : string) (n : Z) : Z * option NumError :=
  match s with
  | EmptyString => (n, None)
  | String c s' =>
      if negb (isDigit c) then (0, Some ErrSyntax)
      else
        let cutoff := maxUint64 / 10 + 1 in
        if cutoff <=? n then (maxUint64, Some ErrRange)
        else
          let n10 := (n * 10) mod 2 ^ 64 in
          let n1 := (n10 + digitVal c) mod 2 ^ 64 in
          if (n1 <? n10) || (maxUint64 <? n1) then (maxUint64, Some ErrRange)
          else parseLoop s' n1
  end.

(** strconv.ParseUint(s, 10, 64) *)
Definition ParseUint (s : string) : Z * option NumError :=
  match s with
  | EmptyString => (0, Some ErrSyntax)
  | _ => parseLoop s 0
  end.

End strconv.

Module regexp.

(** The longest prefix of ASCII digits of [s] (the greedy [\d+]) and what
    follows it. *)
Fixpoint digits (s : string) : string * string :=
  match s with
  | EmptyString => (EmptyString, EmptyString)
  | String c s' =>
      if strconv.isDigit c
      then let '(d, rest) := digits s' in (String c d, rest)
      else (EmptyString, s)
  end.

(** regexp.MustCompile(countersRegexp).FindStringSubmatch(field) for
    countersRegexp = ^\[(\d+):(\d+)]$ : the whole match and the two groups,
    or nil.  The pattern is anchored at both ends and each [\d+] is followed
    by a character that is no digit, so the match is found without
    backtracking. *)
Definition FindStringSubmatch_counters (field : string) : list string :=
  match field with
  | String "["%char s1 =>
      match digits s1 with
      | (String c1 d1, String ":"%char s2) =>
          match digits s2 with
          | (String c2 d2, String "]"%char EmptyString) =>
              [field; String c1 d1; String c2 d2]
          | _ => []
          end
      | _ => []
      end
  | _ => []
  end.

End regexp.

(** ** iptables/parser.go *)

(** parseCounters: the results are named, so an early return gives the zero
    values; after a range error the value strconv returned is kept. *)
Definition parseCounters (field : string) : Z * Z * bool :=
  match regexp.FindStringSubmatch_counters field with
  | [_; p1; p2] =>
      let '(packets, packetsErr) := strconv.ParseUint p1 in
      let '(bytes, bytesErr) := strconv.ParseUint p2 in
      (packets, bytes,
       match packetsErr, bytesErr with None, None => true | _, _ => false end)
  | _ => (0, 0, false)
  end.


(** *** The data model *)

(** Modelled from the spec: the declarations of Rule, Chain, Table and Tables
    (types.go) are missing from the sources.  Section 3 of the specification
    gives a Rule two unsigned 64-bit counters and its text; the field names
    are those the parser and the literals of parser_test.go use. *)
Record Rule := mkRule {
  Rule_Packets : Z;
  Rule_Bytes : Z;
  Rule_Rule : string
}.

(** Modelled from the spec: the declaration of Chain is missing as well.
    Section 3: the default policy, the two counters of the policy and the
    rules in order. *)
Record Chain := mkChain {
  Policy : string;
  Packets : Z;
  Bytes : Z;
  Rules : list Rule
}.

(** Table is map[string]Chain and Tables is map[string]Table; [None] is the
    nil map. *)
Abbreviation Table := (option (gmap string Chain)).
Abbreviation Tables := (option (gmap string (option (gmap string Chain)))).

(** The zero value of Chain, which reading a missing key or a nil map gives. *)
Definition Chain_zero : Chain := mkChain "" 0 0 [].

(** [t[name]] read from a Table *)
Definition Table_get (t : Table) (name : string) : Chain :=
  match t with
  | Some m => default Chain_zero (m !! name)
  | None => Chain_zero
  end.

Record ParseError := mkParseError {
  Message : string;
  LineNumber : Z;
  LineText : string
}.

(** The error values the parser handles: its own ParseError, the value
    errors.Join builds, and whatever error the reader hands to the scanner. *)
#[local] Set Warnings "-register-all".
Inductive error :=
| ErrParse (e : ParseError)
| ErrJoin (errs : list error)
| ErrRead (msg : string).

Module errors.

(** errors.Join: nil arguments are dropped; nil when nothing is left. *)
Definition Join (errs : list (option error)) : option error :=
  match omap id errs with
  | [] => None
  | es => Some (ErrJoin es)
  end.

End errors.

(** The parse errors wrapped in an error value, from left to right (the
    order in which errors.Is and the message of a joined error visit them). *)
Fixpoint parseErrors (e : error) : list ParseError :=
  match e with
  | ErrParse pe => [pe]
  | ErrJoin es =>
      (fix all (es : list error) : list ParseError :=
         match es with
         | [] => []
         | e' :: es' => (parseErrors e' ++ all es')%list
         end) es
  | ErrRead _ => []
  end.

Definition parseErrorsOf (e : option error) : list ParseError :=
  match e with
  | Some e' => parseErrors e'
  | None => []
  end.

(** A call either returns or panics. *)
Inductive outcome (A : Type) :=
| Ok (a : A)
| Panic (msg : string).
Arguments Ok {A} a.
Arguments Panic {A} msg.

Definition bind {A B} (o : outcome A) (f : A -> outcome B) : outcome B :=
  match o with
  | Ok a => f a
  | Panic msg => Panic msg
  end.

(** The sub-parser of a rule line.  rule_parser.go is missing from the
    sources: the parser is written against what [handleRule] uses of it, the
    zero value, the two methods and the five fields it reads, and what is
    proved of the parser holds for every such sub-parser. *)
Class RuleParser := {
  ruleParser : Type;
  ruleParser_zero : ruleParser;
  handleToken : ruleParser -> string -> ruleParser;
  ruleParser_flush : ruleParser -> ruleParser;
  countersOk : ruleParser -> bool;
  packets : ruleParser -> Z;
  bytes : ruleParser -> Z;
  chain : ruleParser -> string;
  flags : ruleParser -> list string
}.

Record parser := mkParser {
  result : Tables;
  currentTableName : string;
  currentTable : Table;
  line : Z;
  err : option error
}.

(** parser{} *)
Definition parser_zero : parser := mkParser None "" None 0 None.

Definition with_err (p : parser) (e : option error) : parser :=
  mkParser (result p) (currentTableName p) (currentTable p) (line p) e.

Definition with_currentTable (p : parser) (t : Table) : parser :=
  mkParser (result p) (currentTableName p) t (line p) (err p).

Definition with_line (p : parser) (n : Z) : parser :=
  mkParser (result p) (currentTableName p) (currentTable p) n (err p).

Definition with_currentTableName (p : parser) (name : string) : parser :=
  mkParser (result p) name (currentTable p) (line p) (err p).

(** [p.line++] on a 64-bit int *)
Definition int_incr (n : Z) : Z :=
  if n =? 2 ^ 63 - 1 then - 2 ^ 63 else n + 1.

(** What the scanner delivers: the texts of the lines [Scan] found, then what
    [Err] reports once [Scan] has returned false. *)
Record Scanner := mkScanner {
  Lines : list string;
  Err : option error
}.

Section Parser.

Context `{RP : RuleParser}.

Definition flush (p : parser) : parser :=
  if negb (String.eqb (currentTableName p) "") then
    let result' := match result p with
                   | None => ∅
                   | Some m => m
                   end in
    mkParser (Some (<[currentTableName p := currentTable p]> result'))
             "" None (line p) (err p)
  else p.

Definition handleNewChain (p : parser) (text : string) : parser :=
  let fields := strings.Fields text in
  match fields with
  | [f0; f1; f2] =>
      let name := strings.TrimPrefix f0 ":" in
      let '(packets, bytes, ok) := parseCounters f2 in
      if negb ok then
        with_err p (errors.Join
          [err p; Some (ErrParse (mkParseError "expected [packets:bytes]" (line p) text))])
      else
        let table := match currentTable p with
                     | None => ∅
                     | Some m => m
                     end in
        let chain := mkChain f1 packets bytes [] in
        with_currentTable p (Some (<[name := chain]> table))
  | _ =>
      with_err p (errors.Join
        [err p; Some (ErrParse (mkParseError "expected 3 fields" (line p) text))])
  end.

(** [handleToken] over the fields, then [flush], from the zero value *)
Definition runRuleParser (fields : list string) : ruleParser :=
  ruleParser_flush (fold_left handleToken fields ruleParser_zero).

Definition handleRule (p : parser) (text : string) : outcome parser :=
  let fields := strings.Fields text in
  let subParser := runRuleParser fields in
  if negb (countersOk subParser) then
    Ok (with_err p (errors.Join
      [err p; Some (ErrParse (mkParseError "expected [packets:bytes]" (line p) text))]))
  else if String.eqb (chain subParser) "" then
    Ok (with_err p (errors.Join
      [err p; Some (ErrParse (mkParseError "expected -A chain ..." (line p) text))]))
  else
    let r := mkRule (packets subParser) (bytes subParser)
                    (strings.Join (flags subParser) " ") in
    let c := Table_get (currentTable p) (chain subParser) in
    let doesRuleExistInChain :=
      fun rule : Rule => String.eqb (Rule_Rule rule) (Rule_Rule r) in
    if slices.ContainsFunc (Rules c) doesRuleExistInChain then Ok p
    else
      let c' := mkChain (Policy c) (Packets c) (Bytes c) (Rules c ++ [r]) in
      match currentTable p with
      | Some m => Ok (with_currentTable p (Some (<[chain subParser := c']> m)))
      | None => Panic "assignment to entry in nil map"
      end.

Definition handleLine (p0 : parser) (raw : string) : outcome parser :=
  let p := with_line p0 (int_incr (line p0)) in
  let text := strings.TrimSpace raw in
  if String.eqb text "" || strings.HasPrefix text "#" then Ok p
  else if String.eqb text "COMMIT" then Ok (flush p)
  else
    let name := strings.TrimPrefix text "*" in
    if negb (String.eqb name text) then
      Ok (with_currentTableName (flush p) name)
    else if strings.HasPrefix text ":" then Ok (handleNewChain p text)
    else if strings.HasPrefix text "[" then handleRule p text
    else
      Ok (with_err p (errors.Join
        [err p; Some (ErrParse (mkParseError "unhandled line" (line p) text))])).

(** The loop [for scanner.Scan() { parser.handleLine(scanner.Text()) }] *)
Fixpoint scanLines (p : parser) (lines : list string) : outcome parser :=
  match lines with
  | [] => Ok p
  | l :: rest => bind (handleLine p l) (fun p' => scanLines p' rest)
  end.

(** ParseIptablesSave; the calls to slog only write to the log. *)
Definition ParseIptablesSave (r : Scanner) : outcome (Tables * option error) :=
  bind (scanLines parser_zero (Lines r)) (fun p =>
    let p := flush p in
    match err p with
    | Some e => Ok (None, Some e)
    | None =>
        match Err r with
        | Some e => Ok (None, Some e)
        | None => Ok (result p, None)
        end
    end).

End Parser.

(** *** The rule sub-parser of the specification *)

(** Modelled from the spec: the ruleParser struct of the missing
    rule_parser.go.  Besides the five fields that [handleRule] reads it
    records whether a token has been seen and whether the last token was a
    -A that still waits for its chain. *)
Record specRuleParser := mkSpecRuleParser {
  sp_started : bool;
  sp_afterA : bool;
  sp_countersOk : bool;
  sp_packets : Z;
  sp_bytes : Z;
  sp_chain : string;
  sp_flags : list string
}.

(** Modelled from the spec: rule_parser.go, which declares the ruleParser
    struct and its method handleToken, is missing from the sources.  Section
    4.2: the first token must match the counter grammar and resolves the
    counters; if it does not, the counters stay unresolved and scanning goes
    on.  Among the remaining tokens the first -A that is followed by a token
    gives the target chain.  Every other token is collected, in order, into
    the flags. *)
Definition spec_handleToken (s : specRuleParser) (token : string) : specRuleParser :=
  let '(pk, bt, ok) := parseCounters token in
  if negb (sp_started s) && ok then
    mkSpecRuleParser true false true pk bt (sp_chain s) (sp_flags s)
  else if sp_afterA s then
    mkSpecRuleParser true false (sp_countersOk s) (sp_packets s) (sp_bytes s)
                     token (sp_flags s)
  else if String.eqb token "-A" && String.eqb (sp_chain s) "" then
    mkSpecRuleParser true true (sp_countersOk s) (sp_packets s) (sp_bytes s)
                     (sp_chain s) (sp_flags s)
  else
    mkSpecRuleParser true false (sp_countersOk s) (sp_packets s) (sp_bytes s)
                     (sp_chain s) (sp_flags s ++ [token]).

(** Modelled from the spec: the method flush of the missing ruleParser.  It
    ends the scan of the tokens: a trailing -A that no token followed is no
    -A/chain pair, and so is collected like any other token. *)
Definition spec_flush (s : specRuleParser) : specRuleParser :=
  if sp_afterA s then
    mkSpecRuleParser (sp_started s) false (sp_countersOk s) (sp_packets s)
                     (sp_bytes s) (sp_chain s) (sp_flags s ++ ["-A"])
  else s.

(** Modelled from the spec: the sub-parser of section 4.2 as an instance of
    the interface the parser is written against. *)
#[export] Instance specRP : RuleParser := {|
  ruleParser := specRuleParser;
  ruleParser_zero := mkSpecRuleParser false false false 0 0 "" [];
  handleToken := spec_handleToken;
  ruleParser_flush := spec_flush;
  countersOk := sp_countersOk;
  packets := sp_packets;
  bytes := sp_bytes;
  chain := sp_chain;
  flags := sp_flags
|}.

(** ** Specification-side definitions

    *** Counter tokens *)

(** What the specification calls a token of the form [<digits>:<digits>]:
    the decimal value of a string of digits, read like the source reads it,
    most significant digit first. *)
Fixpoint decimalFrom (n : Z) (s : string) : Z :=
  match s with
  | EmptyString => n
  | String c s' => decimalFrom (n * 10 + strconv.digitVal c) s'
  end.

Definition decimal (s : string) : Z := decimalFrom 0 s.

Fixpoint allDigits (s : string) : bool :=
  match s with
  | EmptyString => true
  | String c s' => strconv.isDigit c && allDigits s'
  end.

(** A non-empty string of ASCII digits *)
Definition isNumber (s : string) : Prop := s <> "" /\ allDigits s = true.

Definition counterToken (d1 d2 : string) : string :=
  String "["%char (d1 ++ String ":"%char (d2 ++ "]")).

Definition startsWithDigit (s : string) : bool :=
  match s with
  | EmptyString => false
  | String c _ => strconv.isDigit c
  end.


Definition countersResolved (field : string) : bool := snd (parseCounters field).

(** *** Errors line by line *)

Section LineErrors.

Context `{RP : RuleParser}.

(** The parse error that the line numbered [n] gives rise to, if any:
    whether a line is rejected depends on the line alone, not on what the
    parser has seen before. *)
Definition lineError (n : Z) (raw : string) : option ParseError :=
  let text := strings.TrimSpace raw in
  if String.eqb text "" || strings.HasPrefix text "#" then None
  else if String.eqb text "COMMIT" then None
  else if strings.HasPrefix text "*" then None
  else if strings.HasPrefix text ":" then
    match strings.Fields text with
    | [_; _; f2] =>
        if countersResolved f2 then None
        else Some (mkParseError "expected [packets:bytes]" n text)
    | _ => Some (mkParseError "expected 3 fields" n text)
    end
  else if strings.HasPrefix text "[" then
    let subParser := runRuleParser (strings.Fields text) in
    if negb (countersOk subParser)
    then Some (mkParseError "expected [packets:bytes]" n text)
    else if String.eqb (chain subParser) ""
    then Some (mkParseError "expected -A chain ..." n text)
    else None
  else Some (mkParseError "unhandled line" n text).

(** The errors of the lines that follow line [n], in the order of the
    lines *)
Fixpoint lineErrors (n : Z) (lines : list string) : list ParseError :=
  match lines with
  | [] => []
  | l :: rest =>
      (match lineError (int_incr n) l with
       | Some e => [e]
       | None => []
       end ++ lineErrors (int_incr n) rest)%list
  end.

(** The line number after [lines] more lines *)
Definition lineAfter (n : Z) (lines : list string) : Z :=
  fold_left (fun k _ => int_incr k) lines n.

End LineErrors.

(** *** Rule texts within a chain *)

Definition ruleTexts (c : Chain) : list string := map Rule_Rule (Rules c).

Definition distinctTexts (t : Table) : Prop :=
  forall m name c, t = Some m -> m !! name = Some c -> NoDup (ruleTexts c).

Definition parser_distinct (p : parser) : Prop :=
  distinctTexts (currentTable p)
  /\ forall tables tname t,
       result p = Some tables -> tables !! tname = Some t -> distinctTexts t.

(** *** Inputs *)

Definition scenario1 : list string :=
  ["*filter";
   ":INPUT ACCEPT [10:500]";
   "[10:500] -A INPUT -p tcp -m tcp --dport 22 -j ACCEPT";
   "COMMIT"].

Definition scenario1_tables : gmap string (option (gmap string Chain)) :=
  {[ "filter" :=
       Some {[ "INPUT" :=
                 mkChain "ACCEPT" 10 500
                   [mkRule 10 500 "-p tcp -m tcp --dport 22 -j ACCEPT"] ]} ]}.

(** The minimal table, with its rule line repeated under other counters *)
Definition scenario2 : list string :=
  ["*filter";
   ":INPUT ACCEPT [10:500]";
   "[10:500] -A INPUT -p tcp -m tcp --dport 22 -j ACCEPT";
   "[99:9999] -A INPUT -p tcp -m tcp --dport 22 -j ACCEPT";
   "[99:9999] -A INPUT -p tcp -m tcp --dport 22 -j ACCEPT";
   "COMMIT"].

(** A table without its end-of-table marker *)
Definition unterminated : list string := ["*nat"; ":PREROUTING ACCEPT [3:4]"].

(** The parser with the table filter open and one chain in it *)
Definition filter_open : parser :=
  mkParser None "filter"
           (Some {[ "INPUT" := mkChain "ACCEPT" 1 2 [mkRule 5 6 "-j DROP"] ]})
           3 None.

(** A rule line as the first line of its table *)
Definition rule_before_header : list string :=
  ["*filter"; "[1:2] -A INPUT -j ACCEPT"].

(** The same rule line after the header of another chain *)
Definition rule_after_other_header : list string :=
  ["*filter"; ":OUTPUT ACCEPT [0:0]"; "[1:2] -A INPUT -j ACCEPT"].

(** A rejected line, then a rule line as the first line of its table *)
Definition rejected_then_rule_before_header : list string :=
  ["bogus"; "*filter"; "[1:2] -A INPUT -j ACCEPT"].

(** A chain header before any table header *)
Definition chain_before_table : list string :=
  [":INPUT ACCEPT [1:2]"; "*filter"; "COMMIT"].

(** *** When the parser panics *)

Section CrashFree.

Context `{RP : RuleParser}.

(** Whether a chain header passes the two checks of [handleNewChain] *)
Definition headerAccepted (text : string) : bool :=
  match strings.Fields text with
  | [_; _; f2] => countersResolved f2
  | _ => false
  end.

(** Whether a rule line passes the two checks of [handleRule] *)
Definition ruleAccepted (text : string) : bool :=
  let subParser := runRuleParser (strings.Fields text) in
  countersOk subParser && negb (String.eqb (chain subParser) "").

(** All that matters of the parser for a panic: whether a table is open and
    whether the chain mapping is allocated. *)
Definition isOpen (p : parser) : bool := negb (String.eqb (currentTableName p) "").

Definition isAllocated (p : parser) : bool :=
  match currentTable p with
  | Some _ => true
  | None => false
  end.

(** The lines that can be scanned without a panic, from a parser for which
    [open] tells whether a table is open and [alloc] whether the chain
    mapping is allocated: no accepted rule line meets a mapping that is not
    allocated. *)
Fixpoint crashFree (open alloc : bool) (lines : list string) : bool :=
  match lines with
  | [] => true
  | raw :: rest =>
      let text := strings.TrimSpace raw in
      if String.eqb text "" || strings.HasPrefix text "#" then
        crashFree open alloc rest
      else if String.eqb text "COMMIT" then
        crashFree false (alloc && negb open) rest
      else if strings.HasPrefix text "*" then
        crashFree (negb (String.eqb (strings.drop 1 text) ""))
                  (alloc && negb open) rest
      else if strings.HasPrefix text ":" then
        crashFree open (alloc || headerAccepted text) rest
      else if strings.HasPrefix text "[" then
        if ruleAccepted text then alloc && crashFree open alloc rest
        else crashFree open alloc rest
      else crashFree open alloc rest
  end.

End CrashFree.

(** *** The tables of the result *)

(** The names that the table headers of the input give, the empty name left
    out *)
Fixpoint headerNames (lines : list string) : list string :=
  match lines with
  | [] => []
  | raw :: rest =>
      let text := strings.TrimSpace raw in
      if strings.HasPrefix text "*" && negb (String.eqb (strings.drop 1 text) "")
      then strings.drop 1 text :: headerNames rest
      else headerNames rest
  end.

(** The names under which the parser holds a table: the keys of the result
    and the name of the open table. *)
Definition holdsTable (p : parser) (n : string) : Prop :=
  (exists m t, result p = Some m /\ m !! n = Some t)
  \/ (n = currentTableName p /\ n <> "").

Definition inhabitedResult (p : parser) : Prop :=
  forall m, result p = Some m -> exists n t, m !! n = Some t.

(** *** The counters of the chains *)

Definition counterInRange (n : Z) : Prop := 0 <= n < 2 ^ 64.

Definition chainInRange (c : Chain) : Prop :=
  counterInRange (Packets c) /\ counterInRange (Bytes c).

Definition tableInRange (t : Table) : Prop :=
  forall m name c, t = Some m -> m !! name = Some c -> chainInRange c.

Definition parserInRange (p : parser) : Prop :=
  tableInRange (currentTable p)
  /\ forall tables tname t,
       result p = Some tables -> tables !! tname = Some t -> tableInRange t.

(** *** Lines that the parser ignores *)

(** A blank line or a comment *)
Definition isIgnored (raw : string) : bool :=
  let text := strings.TrimSpace raw in
  String.eqb text "" || strings.HasPrefix text "#".

(** The input without its blank lines and comments *)
Definition meaningful (lines : list string) : list string :=
  List.filter (fun raw => negb (isIgnored raw)) lines.

(** Two parsers that hold the same tables; the line counters and the errors
    may differ. *)
Definition sameTables (p q : parser) : Prop :=
  result p = result q
  /\ currentTableName p = currentTableName q
  /\ currentTable p = currentTable q.

(** The same for the outcomes of a handler *)
Definition sameOutcome (a b : outcome parser) : Prop :=
  match a, b with
  | Ok p', Ok q' => sameTables p' q'
  | Panic m, Panic m' => m = m'
  | _, _ => False
  end.

(** Two outcomes of ParseIptablesSave that agree up to the errors: both
    panic, or both return the same Tables, and an error or none alike. *)
Definition agreeUpToErrors (a b : outcome (Tables * option error)) : Prop :=
  match a, b with
  | Ok (t, e), Ok (t', e') => t = t' /\ (e = None <-> e' = None)
  | Panic m, Panic m' => m = m'
  | _, _ => False
  end.

(** *** A run of rule lines *)

(** The insertion of [handleRule], on the rules of the chain *)
Definition insertRule (rs : list Rule) (r : Rule) : list Rule :=
  if slices.ContainsFunc rs (fun rule => String.eqb (Rule_Rule rule) (Rule_Rule r))
  then rs else (rs ++ [r])%list.

Section RuleLines.

Context `{RP : RuleParser}.

(** The rule that [handleRule] makes of a line, and the chain it is for *)
Definition ruleOf (text : string) : Rule :=
  let subParser := runRuleParser (strings.Fields text) in
  mkRule (packets subParser) (bytes subParser) (strings.Join (flags subParser) " ").

Definition chainOf (text : string) : string :=
  chain (runRuleParser (strings.Fields text)).

(** A line that is dispatched to [handleRule] and passes its two checks *)
Definition isRuleLine (raw : string) : bool :=
  strings.HasPrefix (strings.TrimSpace raw) "["
  && ruleAccepted (strings.TrimSpace raw).

(** The rules of the lines that are for the chain [c], in the order of the
    lines *)
Fixpoint rulesFor (c : string) (lines : list string) : list Rule :=
  match lines with
  | [] => []
  | raw :: rest =>
      if String.eqb (chainOf (strings.TrimSpace raw)) c
      then ruleOf (strings.TrimSpace raw) :: rulesFor c rest
      else rulesFor c rest
  end.

End RuleLines.

(** *** The messages of the errors *)

Module fmt.

(** The verb %d of fmt.Sprintf on an int: the decimal digits, after a minus
    sign for a negative number. *)
Definition formatInt (n : Z) : string :=
  DecimalString.NilZero.string_of_int (Z.to_int n).

End fmt.

(** The line feed that errors.Join puts between the messages *)
Definition newline : string := String (ascii_of_nat 10) EmptyString.

(** ParseError.Error: fmt.Sprintf("%s at line %d: %+v", ...); the verb %+v
    prints a string as it is. *)
Definition ParseError_Error (e : ParseError) : string :=
  Message e ++ " at line " ++ fmt.formatInt (LineNumber e) ++ ": " ++ LineText e.

(** The method Error of the error values: that of ParseError, the messages
    of the joined errors with a line feed between them, and the message of
    an error of the reader. *)
Fixpoint error_Error (e : error) : string :=
  match e with
  | ErrParse pe => ParseError_Error pe
  | ErrJoin es =>
      strings.Join
        ((fix all (es : list error) : list string :=
            match es with
            | [] => []
            | e' :: es' => error_Error e' :: all es'
            end) es)
        newline
  | ErrRead msg => msg
  end.

(** An error value whose message is the messages of the parse errors it
    wraps, one on a line *)
Definition messagePerError (e : option error) : Prop :=
  match e with
  | None => True
  | Some e' =>
      parseErrors e' <> []
      /\ error_Error e' = strings.Join (map ParseError_Error (parseErrors e')) newline
  end.

(** *** The default logger *)

Section Logging.

Context `{RP : RuleParser}.

(** ParseIptablesSave calls slog.Error when it fails.  The default logger of
    log/slog is state of the process: it is there before a call and after
    it, and it is the one such state that ParseIptablesSave touches (the
    package declares no variable, and the pattern of the counters is
    compiled by each call of parseCounters).  What the logger is and what a
    call does to it depend on the handler that main installs: both are
    parameters. *)
Variable Logger : Type.

(** [slog.Error(msg, slog.String(key, value))] on the default logger *)
Variable slog_Error : Logger -> string -> string -> string -> Logger.

(** ParseIptablesSave with the default logger threaded through it: the
    outcome of the call and the logger after it.  A panic leaves the scan
    before anything is logged. *)
Definition ParseIptablesSave_logging (logger : Logger) (r : Scanner)
  : outcome (Tables * option error) * Logger :=
  match scanLines parser_zero (Lines r) with
  | Panic msg => (Panic msg, logger)
  | Ok p =>
      let p := flush p in
      match err p with
      | Some e =>
          (Ok (None, Some e),
           slog_Error logger "failed to parse iptables-save" "err" (error_Error e))
      | None =>
          match Err r with
          | Some e =>
              (Ok (None, Some e),
               slog_Error logger "failed to read iptables-save" "err" (error_Error e))
          | None => (Ok (result p, None), logger)
          end
      end
  end.

End Logging.

(** A logger that keeps the lines it is given, for the examples *)
Definition keepLines (logger : list string) (msg key value : string) : list string :=
  (logger ++ [(msg ++ " " ++ key ++ "=" ++ value)%string])%list.

(** ** unicode/utf8 *)

Module utf8.

(** utf8.ValidString on the rest of a string, [need] continuation bytes of
    a rune still to come, the next of them within [lo] and [hi]: the
    accepted ranges are those of the table of the package (no surrogates,
    no overlong forms, nothing above U+10FFFF). *)
Fixpoint validFrom (need : nat) (lo hi : Z) (s : string) : bool :=
  match s with
  | EmptyString =>
      match need with
      | O => true
      | S _ => false
      end
  | String c s' =>
      let b := strings.byte_of c in
      match need with
      | S k => (lo <=? b) && (b <=? hi) && validFrom k 128 191 s'
      | O =>
          if b <? 128 then validFrom 0 0 0 s'
          else if (194 <=? b) && (b <=? 223) then validFrom 1 128 191 s'
          else if b =? 224 then validFrom 2 160 191 s'
          else if ((225 <=? b) && (b <=? 236)) || (b =? 238) || (b =? 239)
          then validFrom 2 128 191 s'
          else if b =? 237 then validFrom 2 128 159 s'
          else if b =? 240 then validFrom 3 144 191 s'
          else if (241 <=? b) && (b <=? 243) then validFrom 3 128 191 s'
          else if b =? 244 then validFrom 3 128 143 s'
          else false
      end
  end.

(** utf8.ValidString *)
Definition ValidString (s : string) : bool := validFrom 0 0 0 s.

End utf8.

(** ** iptables_exporter.go: the collector *)

Module exporter.

(** The six descriptors of the package *)
Inductive Desc :=
| scrapeDurationDesc
| scrapeSuccessDesc
| defaultBytesDesc
| defaultPacketsDesc
| ruleBytesDesc
| rulePacketsDesc.

(** The name given to prometheus.NewDesc *)
Definition fqName (d : Desc) : string :=
  match d with
  | scrapeDurationDesc => "iptables_scrape_duration_seconds"
  | scrapeSuccessDesc => "iptables_scrape_success"
  | defaultBytesDesc => "iptables_default_bytes_total"
  | defaultPacketsDesc => "iptables_default_packets_total"
  | ruleBytesDesc => "iptables_rule_bytes_total"
  | rulePacketsDesc => "iptables_rule_packets_total"
  end.

(** The names of the labels given to prometheus.NewDesc *)
Definition variableLabels (d : Desc) : list string :=
  match d with
  | scrapeDurationDesc | scrapeSuccessDesc => []
  | defaultBytesDesc | defaultPacketsDesc => ["table"; "chain"; "policy"]
  | ruleBytesDesc | rulePacketsDesc => ["table"; "chain"; "rule"]
  end.

Inductive ValueType := GaugeValue | CounterValue.

(** The float64 values of the metrics, kept as the expressions of the
    source: the seconds of a duration, a constant, and the conversion of a
    uint64. *)
Inductive float64 :=
| Seconds (duration : Z)
| Const (n : Z)
| OfUint64 (n : Z).

(** A constant metric: the arguments of the call of
    prometheus.MustNewConstMetric that makes it. *)
Record Metric := mkMetric {
  desc : Desc;
  valueType : ValueType;
  value : float64;
  labelValues : list string
}.

(** Describe: the descriptors sent on the channel, in order *)
Definition Describe : list Desc :=
  [scrapeDurationDesc; scrapeSuccessDesc; defaultBytesDesc; defaultPacketsDesc;
   ruleBytesDesc; rulePacketsDesc].

Section Collect.

(** The order in which a range statement visits the entries of a map is not
    specified: it is a parameter, for the tables and, table by table, for
    the chains. *)
Variable tableOrder :
  gmap string (option (gmap string Chain)) -> list (string * option (gmap string Chain)).
Variable chainOrder : string -> gmap string Chain -> list (string * Chain).

(** The body of the loop over the rules of a chain *)
Definition ruleMetrics (tableName chainName : string) (rule : Rule) : list Metric :=
  [mkMetric rulePacketsDesc CounterValue (OfUint64 (Rule_Packets rule))
            [tableName; chainName; Rule_Rule rule];
   mkMetric ruleBytesDesc CounterValue (OfUint64 (Rule_Bytes rule))
            [tableName; chainName; Rule_Rule rule]].

(** The body of the loop over the chains of a table *)
Definition chainMetrics (tableName chainName : string) (c : Chain) : list Metric :=
  mkMetric defaultPacketsDesc CounterValue (OfUint64 (Packets c))
           [tableName; chainName; Policy c]
  :: mkMetric defaultBytesDesc CounterValue (OfUint64 (Bytes c))
              [tableName; chainName; Policy c]
  :: (Rules c ≫= ruleMetrics tableName chainName).

(** The body of the loop over the tables; a nil table has no entries. *)
Definition tableMetrics (tableName : string) (table : Table) : list Metric :=
  match table with
  | None => []
  | Some m =>
      chainOrder tableName m ≫= (fun '(chainName, c) => chainMetrics tableName chainName c)
  end.

(** The calls of MustNewConstMetric that Collect comes to, in order, after
    iptables.GetTables has returned [(tables, err)] and taken [duration],
    as long as none of them panics. *)
Definition calls (duration : Z) (tables : Tables) (err : option error)
  : list Metric :=
  mkMetric scrapeDurationDesc GaugeValue (Seconds duration) []
  :: match err with
     | Some _ => [mkMetric scrapeSuccessDesc GaugeValue (Const 0) []]
     | None =>
         mkMetric scrapeSuccessDesc GaugeValue (Const 1) []
         :: match tables with
            | None => []
            | Some m =>
                tableOrder m ≫= (fun '(tableName, table) => tableMetrics tableName table)
            end
     end.

(** prometheus.MustNewConstMetric returns the metric when the number of the
    label values is the number of the label names of the descriptor and
    every label value is valid UTF-8; it panics otherwise. *)
Definition accepted (m : Metric) : bool :=
  (length (labelValues m) =? length (variableLabels (desc m)))%nat
  && forallb utf8.ValidString (labelValues m).

(** The calls one after the other, the result of each sent on the channel,
    until a call panics: the metrics sent and whether a call panicked. *)
Fixpoint sendEach (cs : list Metric) : list Metric * bool :=
  match cs with
  | [] => ([], false)
  | m :: rest =>
      if accepted m
      then let '(sent, panicked) := sendEach rest in (m :: sent, panicked)
      else ([], true)
  end.

(** Collect: the metrics sent on the channel, in order, and whether Collect
    panicked. *)
Definition Collect (duration : Z) (tables : Tables) (err : option error)
  : list Metric * bool :=
  sendEach (calls duration tables err).

End Collect.

(** A metric is told from the others by its descriptor and its label
    values. *)
Definition metricKey (m : Metric) : Desc * list string := (desc m, labelValues m).

(** The metrics of the Tables: for each chain of each table the packets and
    the bytes of its policy, and for each rule of the chain the packets and
    the bytes of the rule; with them the duration and the success. *)
Definition exported (duration : Z)
    (tables : gmap string (option (gmap string Chain))) (x : Metric) : Prop :=
  x = mkMetric scrapeDurationDesc GaugeValue (Seconds duration) []
  \/ x = mkMetric scrapeSuccessDesc GaugeValue (Const 1) []
  \/ exists tn m cn c,
       tables !! tn = Some (Some m) /\ m !! cn = Some c
       /\ (x = mkMetric defaultPacketsDesc CounterValue (OfUint64 (Packets c))
                        [tn; cn; Policy c]
           \/ x = mkMetric defaultBytesDesc CounterValue (OfUint64 (Bytes c))
                           [tn; cn; Policy c]
           \/ exists rule,
                rule ∈ Rules c
                /\ (x = mkMetric rulePacketsDesc CounterValue
                                 (OfUint64 (Rule_Packets rule))
                                 [tn; cn; Rule_Rule rule]
                    \/ x = mkMetric ruleBytesDesc CounterValue
                                    (OfUint64 (Rule_Bytes rule))
                                    [tn; cn; Rule_Rule rule])).

(** The strings of the Tables that become label values are valid UTF-8: the
    names of the tables that have a chain, the names and the policies of
    the chains, and the texts of the rules. *)
Definition labelsValid (tables : gmap string (option (gmap string Chain))) : Prop :=
  forall tn m cn c,
    tables !! tn = Some (Some m) -> m !! cn = Some c ->
    utf8.ValidString tn = true /\ utf8.ValidString cn = true
    /\ utf8.ValidString (Policy c) = true
    /\ forall rule, rule ∈ Rules c -> utf8.ValidString (Rule_Rule rule) = true.

End exporter.

(** *** The lines of one table *)

(** A line that flushes nothing: neither the end-of-table marker nor a table
    header *)
Definition isBodyLine (raw : string) : bool :=
  let text := strings.TrimSpace raw in
  negb (String.eqb text "COMMIT" || strings.HasPrefix text "*").

(** Two parsers with the same open table; the results, the line counters
    and the errors may differ. *)
Definition sameOpen (p q : parser) : Prop :=
  currentTableName p = currentTableName q /\ currentTable p = currentTable q.

(** A parser that has just opened the table [name], and nothing else *)
Definition justOpened (name : string) : parser := mkParser None name None 0 None.

(** The name under which [handleNewChain] stores the chain of a header *)
Definition headerName (text : string) : string :=
  match strings.Fields text with
  | f0 :: _ => strings.TrimPrefix f0 ":"
  | [] => ""
  end.

(** The chain mapping has an entry for [name] *)
Definition hasChain (t : Table) (name : string) : Prop :=
  exists m c, t = Some m /\ m !! name = Some c.

(** *** More inputs *)

(** Two tables, the second without its end-of-table marker *)
Definition scenario3 : list string :=
  ["*filter"; ":INPUT ACCEPT [1:2]"; "COMMIT";
   "*nat"; ":PREROUTING ACCEPT [3:4]"; "[5:6] -A PREROUTING -j DNAT"].

Definition scenario3_tables : gmap string (option (gmap string Chain)) :=
  {[ "filter" := Some {[ "INPUT" := mkChain "ACCEPT" 1 2 [] ]};
     "nat" := Some {[ "PREROUTING" := mkChain "ACCEPT" 3 4 [mkRule 5 6 "-j DNAT"] ]} ]}.

(** A chain header with two fields and a line of no kind *)
Definition scenario4 : list string :=
  ["*filter"; ":INPUT ACCEPT"; "bogus"; "COMMIT"].

Definition scenario4_error : error :=
  ErrJoin [ErrJoin [ErrParse (mkParseError "expected 3 fields" 2 ":INPUT ACCEPT")];
           ErrParse (mkParseError "unhandled line" 3 "bogus")].

(** Rule lines for one chain, the text of the first repeated under other
    counters *)
Definition rule_run : list string :=
  ["[7:70] -A INPUT -j ACCEPT"; "[8:80] -A INPUT -j DROP"; "[9:90] -A INPUT -j ACCEPT"].

(** The lines of a table after its header *)
Definition nat_body : list string :=
  ["# nat"; ":PREROUTING ACCEPT [3:4]"; "[5:6] -A PREROUTING -j DNAT"].

(** * Properties *)

(** ** The standard library models and the scenarios of the specification *)

Example TrimSpace_ex : strings.TrimSpace "  :INPUT ACCEPT [0:0] " = ":INPUT ACCEPT [0:0]".
Proof. reflexivity. Qed.

Example TrimSpace_ex2 : strings.TrimSpace "	a xy " = "a xy".
Proof. reflexivity. Qed.

Example TrimSpace_ex3 :
  strings.TrimSpace (String (ascii_of_nat 194) (String (ascii_of_nat 160) "COMMIT ")
                     ++ String (ascii_of_nat 226)
                          (String (ascii_of_nat 128) (String (ascii_of_nat 168) "")))
  = "COMMIT".
Proof. reflexivity. Qed.

Example Fields_ex :
  strings.Fields " [1:2]  -A INPUT	-j ACCEPT " = ["[1:2]"; "-A"; "INPUT"; "-j"; "ACCEPT"].
Proof. reflexivity. Qed.

Example parseCounters_ex1 : parseCounters "[10:500]" = (10, 500, true).
Proof. reflexivity. Qed.

Example parseCounters_ex2 :
  parseCounters "[18446744073709551615:0018446744073709551615]"
  = (18446744073709551615, 18446744073709551615, true).
Proof. vm_compute. reflexivity. Qed.

Example parseCounters_ex3 :
  parseCounters "[18446744073709551616:7]" = (18446744073709551615, 7, false).
Proof. vm_compute. reflexivity. Qed.

Example parseCounters_ex4 : parseCounters "[1:2] " = (0, 0, false).
Proof. reflexivity. Qed.

Example ParseIptablesSave_scenario1 :
  ParseIptablesSave (mkScanner scenario1 None) = Ok (Some scenario1_tables, None).
Proof. vm_compute. reflexivity. Qed.

Example ParseIptablesSave_scenario2 :
  ParseIptablesSave (mkScanner scenario2 None) = Ok (Some scenario1_tables, None).
Proof. vm_compute. reflexivity. Qed.

Example ParseIptablesSave_scenario3 :
  ParseIptablesSave
    (mkScanner
       ["*filter"; ":INPUT ACCEPT [1:2]"; "COMMIT";
        "*nat"; ":PREROUTING ACCEPT [3:4]"; "[5:6] -A PREROUTING -j DNAT"] None)
  = Ok (Some {[ "filter" := Some {[ "INPUT" := mkChain "ACCEPT" 1 2 [] ]};
                "nat" := Some {[ "PREROUTING" :=
                                   mkChain "ACCEPT" 3 4 [mkRule 5 6 "-j DNAT"] ]} ]},
        None).
Proof. vm_compute. reflexivity. Qed.

Example ParseIptablesSave_scenario4 :
  ParseIptablesSave
    (mkScanner ["*filter"; ":INPUT ACCEPT"; "bogus"; "COMMIT"] None)
  = Ok (None,
        Some (ErrJoin
                [ErrJoin [ErrParse (mkParseError "expected 3 fields" 2 ":INPUT ACCEPT")];
                 ErrParse (mkParseError "unhandled line" 3 "bogus")])).
Proof. vm_compute. reflexivity. Qed.

Example ParseError_Error_ex :
  ParseError_Error (mkParseError "unhandled line" 12 "bogus")
  = "unhandled line at line 12: bogus".
Proof. reflexivity. Qed.

(** ** Counter parsing *)

Lemma isDigit_digitVal c :
  strconv.isDigit c = true -> 0 <= strconv.digitVal c <= 9.
Proof.
  unfold strconv.isDigit, strconv.digitVal. intros H.
  apply andb_true_iff in H as [H1 H2]. lia.
Qed.

Lemma decimalFrom_ge s : forall n,
  0 <= n -> allDigits s = true -> n <= decimalFrom n s.
Proof.
  induction s as [|c s IH]; intros n Hn Hd; simpl in *; [lia|].
  apply andb_true_iff in Hd as [Hc Hs].
  pose proof (isDigit_digitVal c Hc).
  specialize (IH (n * 10 + strconv.digitVal c) ltac:(lia) Hs). lia.
Qed.

(** The loop of ParseUint returns without error exactly when every byte is a
    digit and the value fits 64 bits, and then returns the value. *)
Lemma parseLoop_spec s : forall n,
  0 <= n <= strconv.maxUint64 ->
  (allDigits s = true /\ decimalFrom n s <= strconv.maxUint64 ->
   strconv.parseLoop s n = (decimalFrom n s, None))
  /\ (snd (strconv.parseLoop s n) = None ->
      allDigits s = true /\ decimalFrom n s <= strconv.maxUint64).
Proof.
  induction s as [|c s IH]; intros n Hn.
  - simpl. split; [reflexivity | lia].
  - cbn [strconv.parseLoop allDigits decimalFrom].
    destruct (strconv.isDigit c) eqn:Hc; cbn [negb andb].
    2:{ split; [intros [? _]; discriminate | simpl; discriminate]. }
    pose proof (isDigit_digitVal c Hc) as Hd.
    unfold strconv.maxUint64 in *.
    change (2 ^ 64) with 18446744073709551616 in *.
    change ((18446744073709551616 - 1) / 10 + 1) with 1844674407370955162.
    destruct (Z.leb_spec 1844674407370955162 n) as [Hcut|Hcut].
    { split.
      - intros [Hs Hle].
        pose proof (decimalFrom_ge s (n * 10 + strconv.digitVal c) ltac:(lia) Hs).
        exfalso. lia.
      - simpl. discriminate. }
    rewrite (Z.mod_small (n * 10)) by lia.
    set (d := strconv.digitVal c) in *.
    destruct (Z.leb_spec (n * 10 + d) 18446744073709551615) as [Hfit|Hover].
    + rewrite (Z.mod_small (n * 10 + d)) by lia.
      replace (n * 10 + d <? n * 10) with false by (symmetry; apply Z.ltb_ge; lia).
      replace (18446744073709551616 - 1 <? n * 10 + d) with false
        by (symmetry; apply Z.ltb_ge; lia).
      cbn [orb]. apply IH. lia.
    + assert (Hw : (n * 10 + d) mod 18446744073709551616
                   = n * 10 + d - 18446744073709551616).
      { symmetry. apply (Z.mod_unique _ _ 1); lia. }
      rewrite Hw.
      replace (n * 10 + d - 18446744073709551616 <? n * 10) with true
        by (symmetry; apply Z.ltb_lt; lia).
      cbn [orb]. split.
      * intros [Hs Hle].
        pose proof (decimalFrom_ge s (n * 10 + d) ltac:(lia) Hs).
        exfalso. lia.
      * simpl. discriminate.
Qed.

Lemma ParseUint_ok s v :
  strconv.ParseUint s = (v, None)
  <-> isNumber s /\ decimal s <= strconv.maxUint64 /\ v = decimal s.
Proof.
  unfold isNumber, decimal.
  assert (H0 : 0 <= 0 <= strconv.maxUint64) by (unfold strconv.maxUint64; lia).
  destruct (parseLoop_spec s 0 H0) as [Hto Hfrom].
  destruct s as [|c s].
  - simpl. split; [discriminate | intros [[? _] _]; congruence].
  - change (strconv.ParseUint (String c s)) with (strconv.parseLoop (String c s) 0).
    split.
    + intros Hp. rewrite Hp in Hfrom. destruct (Hfrom eq_refl) as [Hd Hle].
      rewrite (Hto (conj Hd Hle)) in Hp. inversion Hp.
      repeat split; auto; discriminate.
    + intros [[_ Hd] [Hle ->]]. apply Hto. auto.
Qed.

Lemma decimal_nonneg s : allDigits s = true -> 0 <= decimal s.
Proof. intros H. apply (decimalFrom_ge s 0); [lia | exact H]. Qed.

Lemma digits_split s : forall d rest,
  regexp.digits s = (d, rest) ->
  s = d ++ rest /\ allDigits d = true /\ startsWithDigit rest = false.
Proof.
  induction s as [|c s IH]; intros d rest; simpl.
  - intros [= <- <-]. auto.
  - destruct (strconv.isDigit c) eqn:Hc.
    + destruct (regexp.digits s) as [d' rest'].
      intros [= <- <-]. destruct (IH d' rest' eq_refl) as (-> & Hd & Hr).
      simpl. rewrite Hc. auto.
    + intros [= <- <-]. simpl. rewrite Hc. auto.
Qed.

Lemma digits_app d : forall rest,
  allDigits d = true -> startsWithDigit rest = false ->
  regexp.digits (d ++ rest) = (d, rest).
Proof.
  induction d as [|c d IH]; intros rest Hd Hr; simpl in *.
  - destruct rest as [|c r]; simpl in *; [reflexivity | rewrite Hr; reflexivity].
  - apply andb_true_iff in Hd as [Hc Hd]. rewrite Hc, (IH rest Hd Hr). reflexivity.
Qed.

(** The pattern matches exactly the tokens [<digits>:<digits>], and the two
    groups are the two strings of digits. *)
Lemma FindStringSubmatch_counters_spec field w a b :
  regexp.FindStringSubmatch_counters field = [w; a; b]
  <-> w = field /\ field = counterToken a b /\ isNumber a /\ isNumber b.
Proof.
  unfold regexp.FindStringSubmatch_counters, counterToken, isNumber. split.
  - destruct field as [|c0 s1]; [discriminate|].
    destruct (Ascii.eqb_spec c0 "["%char) as [->|Hne].
    2:{ destruct c0 as [[] [] [] [] [] [] [] []]; try discriminate.
        contradiction Hne; reflexivity. }
    destruct (regexp.digits s1) as [d1 r1] eqn:H1.
    apply digits_split in H1 as (-> & Hd1 & _).
    destruct d1 as [|c1 d1]; [discriminate|].
    destruct r1 as [|k s2]; [discriminate|].
    destruct (Ascii.eqb_spec k ":"%char) as [->|Hne].
    2:{ destruct k as [[] [] [] [] [] [] [] []]; try discriminate.
        contradiction Hne; reflexivity. }
    destruct (regexp.digits s2) as [d2 r2] eqn:H2.
    apply digits_split in H2 as (-> & Hd2 & _).
    destruct d2 as [|c2 d2]; [discriminate|].
    destruct r2 as [|k r2]; [discriminate|].
    destruct (Ascii.eqb_spec k "]"%char) as [->|Hne].
    2:{ destruct k as [[] [] [] [] [] [] [] []]; try discriminate.
        contradiction Hne; reflexivity. }
    destruct r2; [|discriminate].
    intros [= <- <- <-]. repeat split; auto; discriminate.
  - intros (-> & -> & [Ha Hda] & [Hb Hdb]).
    rewrite (digits_app a) by (auto; reflexivity).
    destruct a as [|c1 d1]; [congruence|].
    rewrite (digits_app b) by (auto; reflexivity).
    destruct b as [|c2 d2]; [congruence|]. reflexivity.
Qed.

Lemma FindStringSubmatch_counters_shape field :
  regexp.FindStringSubmatch_counters field = []
  \/ exists a b, regexp.FindStringSubmatch_counters field = [field; a; b].
Proof.
  unfold regexp.FindStringSubmatch_counters.
  destruct field as [|c0 s1]; [auto|].
  destruct c0 as [[] [] [] [] [] [] [] []]; auto.
  destruct (regexp.digits s1) as [[|c1 d1] [|k s2]]; auto.
  destruct k as [[] [] [] [] [] [] [] []]; auto.
  destruct (regexp.digits s2) as [[|c2 d2] [|k r2]]; auto.
  destruct k as [[] [] [] [] [] [] [] []]; auto.
  destruct r2; eauto.
Qed.

(** parseCounters succeeds exactly on the tokens [<digits>:<digits>] whose two
    numbers fit uint64, and then returns the two numbers. *)
Lemma parseCounters_ok field pk bt :
  parseCounters field = (pk, bt, true)
  <-> exists d1 d2,
        field = counterToken d1 d2 /\ isNumber d1 /\ isNumber d2
        /\ decimal d1 <= strconv.maxUint64 /\ decimal d2 <= strconv.maxUint64
        /\ pk = decimal d1 /\ bt = decimal d2.
Proof.
  unfold parseCounters. split.
  - destruct (FindStringSubmatch_counters_shape field) as [->|(a & b & Hm)];
      [discriminate|].
    rewrite Hm. apply FindStringSubmatch_counters_spec in Hm as (_ & Hf & Ha & Hb).
    destruct (strconv.ParseUint a) as [va ea] eqn:Hpa.
    destruct (strconv.ParseUint b) as [vb eb] eqn:Hpb.
    destruct ea, eb; try discriminate. intros [= <- <-].
    apply ParseUint_ok in Hpa as (_ & Hla & ->).
    apply ParseUint_ok in Hpb as (_ & Hlb & ->).
    exists a, b. auto 10.
  - intros (d1 & d2 & Hf & H1 & H2 & Hl1 & Hl2 & -> & ->).
    assert (Hm : regexp.FindStringSubmatch_counters field = [field; d1; d2])
      by (apply FindStringSubmatch_counters_spec; auto).
    rewrite Hm.
    assert (Hp1 : strconv.ParseUint d1 = (decimal d1, None))
      by (apply ParseUint_ok; auto).
    assert (Hp2 : strconv.ParseUint d2 = (decimal d2, None))
      by (apply ParseUint_ok; auto).
    rewrite Hp1, Hp2. reflexivity.
Qed.


(** ** The line dispatcher *)

Lemma String_neq_cons c s : s <> String c s.
Proof.
  intros H. apply (f_equal String.length) in H. simpl in H. lia.
Qed.

Lemma HasPrefix_char text c :
  strings.HasPrefix text (String c "") = true <-> exists s, text = String c s.
Proof.
  destruct text as [|c0 s]; simpl.
  - split; [discriminate | intros [? [=]]].
  - rewrite andb_true_r. split.
    + intros H%Ascii.eqb_eq. subst. eauto.
    + intros [s' [= -> ->]]. apply Ascii.eqb_refl.
Qed.

(** The test [name != line] of the table header case holds exactly for the
    lines that start with a star. *)
Lemma TrimPrefix_star text :
  negb (String.eqb (strings.TrimPrefix text "*") text) = strings.HasPrefix text "*".
Proof.
  unfold strings.TrimPrefix.
  destruct (strings.HasPrefix text "*") eqn:H.
  - apply HasPrefix_char in H as [s ->]. simpl.
    apply negb_true_iff, String.eqb_neq, String_neq_cons.
  - rewrite String.eqb_refl. reflexivity.
Qed.

Lemma parseErrorsOf_Join a e :
  parseErrorsOf (errors.Join [a; Some (ErrParse e)]) = (parseErrorsOf a ++ [e])%list.
Proof. destruct a; reflexivity. Qed.

Lemma Join_not_nil a e : errors.Join [a; Some e] <> None.
Proof. destruct a; discriminate. Qed.

Lemma bind_Ok {A B} (o : outcome A) (f : A -> outcome B) b :
  bind o f = Ok b -> exists a, o = Ok a /\ f a = Ok b.
Proof. destruct o; simpl; [eauto | discriminate]. Qed.

Section ParserFacts.

Context `{RP : RuleParser}.

(** [handleLine] with the table header test written as a prefix test *)
Lemma handleLine_eq p raw :
  handleLine p raw =
  let q := with_line p (int_incr (line p)) in
  let text := strings.TrimSpace raw in
  if String.eqb text "" || strings.HasPrefix text "#" then Ok q
  else if String.eqb text "COMMIT" then Ok (flush q)
  else if strings.HasPrefix text "*" then
    Ok (with_currentTableName (flush q) (strings.drop 1 text))
  else if strings.HasPrefix text ":" then Ok (handleNewChain q text)
  else if strings.HasPrefix text "[" then handleRule q text
  else Ok (with_err q (errors.Join
         [err q; Some (ErrParse (mkParseError "unhandled line" (line q) text))])).
Proof.
  unfold handleLine. cbv zeta. rewrite TrimPrefix_star.
  destruct (strings.HasPrefix (strings.TrimSpace raw) "*") eqn:H;
    [|reflexivity].
  unfold strings.TrimPrefix. rewrite H. reflexivity.
Qed.

Lemma flush_fields p :
  line (flush p) = line p /\ err (flush p) = err p.
Proof. unfold flush. destruct (negb _); auto. Qed.

Lemma flush_closed p : currentTableName p = "" -> flush p = p.
Proof. intros H. unfold flush. rewrite H. reflexivity. Qed.

Lemma flush_open p :
  currentTableName p <> "" ->
  flush p = mkParser
              (Some (<[currentTableName p := currentTable p]>
                       (default ∅ (result p))))
              "" None (line p) (err p).
Proof.
  intros H. unfold flush. apply String.eqb_neq in H. rewrite H. simpl.
  destruct (result p); reflexivity.
Qed.

Lemma flush_idempotent p : flush (flush p) = flush p.
Proof.
  apply flush_closed. unfold flush.
  destruct (String.eqb (currentTableName p) "") eqn:H; simpl; [|reflexivity].
  apply String.eqb_eq, H.
Qed.

Lemma handleNewChain_fields q text :
  line (handleNewChain q text) = line q
  /\ result (handleNewChain q text) = result q
  /\ currentTableName (handleNewChain q text) = currentTableName q
  /\ err (handleNewChain q text) =
     match strings.Fields text with
     | [_; _; f2] =>
         if countersResolved f2 then err q
         else errors.Join
                [err q; Some (ErrParse
                   (mkParseError "expected [packets:bytes]" (line q) text))]
     | _ => errors.Join
              [err q; Some (ErrParse (mkParseError "expected 3 fields" (line q) text))]
     end.
Proof.
  unfold handleNewChain, countersResolved.
  destruct (strings.Fields text) as [|f0 [|f1 [|f2 [|f3 fs]]]]; simpl; auto.
  destruct (parseCounters f2) as [[pk bt] [|]]; simpl; auto.
Qed.

Lemma handleRule_fields q text p' :
  handleRule q text = Ok p' ->
  line p' = line q
  /\ result p' = result q
  /\ currentTableName p' = currentTableName q
  /\ err p' =
     let subParser := runRuleParser (strings.Fields text) in
     if negb (countersOk subParser) then
       errors.Join
         [err q; Some (ErrParse
            (mkParseError "expected [packets:bytes]" (line q) text))]
     else if String.eqb (chain subParser) "" then
       errors.Join
         [err q; Some (ErrParse (mkParseError "expected -A chain ..." (line q) text))]
     else err q.
Proof.
  unfold handleRule. cbv zeta.
  destruct (negb (countersOk _)); [intros [= <-]; simpl; auto|].
  destruct (String.eqb (chain _) ""); [intros [= <-]; simpl; auto|].
  destruct (slices.ContainsFunc _ _); [intros [= <-]; auto|].
  destruct (currentTable q); [intros [= <-]; simpl; auto | discriminate].
Qed.

(** A line that [handleLine] returns from advances the line counter by one
    and adds the error of that line, if it has one, to the errors. *)
Lemma handleLine_err p raw p' :
  handleLine p raw = Ok p' ->
  line p' = int_incr (line p)
  /\ err p' = match lineError (int_incr (line p)) raw with
              | Some e => errors.Join [err p; Some (ErrParse e)]
              | None => err p
              end.
Proof.
  rewrite handleLine_eq. unfold lineError. cbv zeta.
  set (text := strings.TrimSpace raw).
  set (q := with_line p (int_incr (line p))).
  destruct (String.eqb text "" || strings.HasPrefix text "#");
    [intros [= <-]; auto|].
  destruct (String.eqb text "COMMIT").
  { intros [= <-]. destruct (flush_fields q) as [-> ->]. auto. }
  destruct (strings.HasPrefix text "*").
  { intros [= <-]. simpl. destruct (flush_fields q) as [-> ->]. auto. }
  destruct (strings.HasPrefix text ":").
  { intros [= <-].
    destruct (handleNewChain_fields q text) as (-> & _ & _ & ->).
    split; [reflexivity|].
    destruct (strings.Fields text) as [|f0 [|f1 [|f2 [|f3 fs]]]]; try reflexivity.
    destruct (countersResolved f2); reflexivity. }
  destruct (strings.HasPrefix text "[").
  { intros H. apply handleRule_fields in H as (-> & _ & _ & ->).
    split; [reflexivity|]. cbv zeta.
    destruct (negb (countersOk _)); [reflexivity|].
    destruct (String.eqb (chain _) ""); reflexivity. }
  intros [= <-]. auto.
Qed.

Lemma scanLines_err lines : forall p p',
  scanLines p lines = Ok p' ->
  line p' = lineAfter (line p) lines
  /\ parseErrorsOf (err p') =
     (parseErrorsOf (err p) ++ lineErrors (line p) lines)%list
  /\ (err p' = None <-> err p = None /\ lineErrors (line p) lines = []).
Proof.
  induction lines as [|l rest IH]; intros p p'; simpl.
  - intros [= <-]. rewrite app_nil_r. unfold lineAfter. simpl. tauto.
  - intros H. apply bind_Ok in H as (p1 & H1 & H2).
    apply handleLine_err in H1 as [Hl He].
    apply IH in H2 as (-> & -> & Hnil). rewrite Hl, He in *.
    unfold lineAfter. simpl. split; [reflexivity|].
    destruct (lineError (int_incr (line p)) l) as [e|]; simpl.
    + rewrite parseErrorsOf_Join, <- app_assoc. split; [reflexivity|].
      rewrite Hnil. split.
      * intros [H _]. destruct (Join_not_nil _ _ H).
      * intros [_ [=]].
    + auto.
Qed.

End ParserFacts.

(** ** The error policy *)

Section ErrorPolicy.

Context `{RP : RuleParser}.

(** When the scan reaches the end of the input, the result is decided by
    the parser's errors first, by the scanner's error second. *)
Lemma ParseIptablesSave_after_scan r p :
  scanLines parser_zero (Lines r) = Ok p ->
  ParseIptablesSave r =
  match err p, Err r with
  | Some e, _ => Ok (None, Some e)
  | None, Some e => Ok (None, Some e)
  | None, None => Ok (result (flush p), None)
  end.
Proof.
  intros H. unfold ParseIptablesSave. rewrite H. simpl.
  destruct (flush_fields p) as [_ ->]. reflexivity.
Qed.

(** Every scan that reaches the end of the input has dispatched each line,
    and if some line is rejected the result is the aggregate of the errors
    of all rejected lines, with no Tables value, whatever the scanner
    reports. *)
Lemma ParseIptablesSave_reports_all r p :
  scanLines parser_zero (Lines r) = Ok p ->
  lineErrors 0 (Lines r) <> [] ->
  line p = lineAfter 0 (Lines r)
  /\ exists e, ParseIptablesSave r = Ok (None, Some e)
               /\ parseErrors e = lineErrors 0 (Lines r).
Proof.
  intros H Hne. rewrite (ParseIptablesSave_after_scan r p H).
  apply scanLines_err in H as (Hl & He & Hnil). simpl in *.
  split; [exact Hl|].
  destruct (err p) as [e|]; [eauto|].
  destruct (proj1 Hnil eq_refl) as [_ Habs]. contradiction.
Qed.

(** Without a rejected line the scanner's error, if any, is the result. *)
Lemma ParseIptablesSave_read_error r p e :
  scanLines parser_zero (Lines r) = Ok p ->
  lineErrors 0 (Lines r) = [] -> Err r = Some e ->
  ParseIptablesSave r = Ok (None, Some e).
Proof.
  intros H Hnil He. rewrite (ParseIptablesSave_after_scan r p H), He.
  apply scanLines_err in H as (_ & _ & Hn). simpl in Hn.
  rewrite (proj2 Hn (conj eq_refl Hnil)). reflexivity.
Qed.

Lemma result_flush_with_line p n :
  result (flush (with_line p n)) = result (flush p).
Proof. unfold flush. simpl. destruct (negb _); reflexivity. Qed.

(** Which lines touch the result: the end-of-table marker and the table
    headers, by a flush; no other line. *)
Lemma handleLine_result p raw p' :
  handleLine p raw = Ok p' ->
  result p' =
  let text := strings.TrimSpace raw in
  if String.eqb text "COMMIT" || strings.HasPrefix text "*"
  then result (flush p) else result p.
Proof.
  rewrite handleLine_eq. cbv zeta.
  set (text := strings.TrimSpace raw).
  set (q := with_line p (int_incr (line p))).
  destruct (String.eqb text "" || strings.HasPrefix text "#") eqn:Hb.
  { intros [= <-]. apply orb_true_iff in Hb as [Hb|Hb].
    - apply String.eqb_eq in Hb. rewrite Hb. reflexivity.
    - apply HasPrefix_char in Hb as [s ->]. reflexivity. }
  destruct (String.eqb text "COMMIT").
  { intros [= <-]. apply result_flush_with_line. }
  destruct (strings.HasPrefix text "*").
  { intros [= <-]. simpl. apply result_flush_with_line. }
  cbn [orb]. destruct (strings.HasPrefix text ":").
  { intros [= <-]. destruct (handleNewChain_fields q text) as (_ & -> & _).
    reflexivity. }
  destruct (strings.HasPrefix text "[").
  { intros H. apply handleRule_fields in H as (_ & -> & _). reflexivity. }
  intros [= <-]. reflexivity.
Qed.

End ErrorPolicy.

(** ** Claims *)

(** C6.  The chain mapping of an open table is committed into the
    result at three moments and at no other.  A flush with no open table
    changes nothing; a flush of an open table stores its mapping under its
    name and closes the table, so that a second flush commits nothing more.
    Handling a line changes the result only for COMMIT and for a table
    header, and then by a flush.  When the scan has consumed the last line,
    ParseIptablesSave flushes once more, COMMIT or not, and what it returns
    (no error having occurred) is the result of that flush. *)
Theorem C6_commit_at_three_moments `{RP : RuleParser} :
  (forall p, currentTableName p = "" -> flush p = p)
  /\ (forall p, flush (flush p) = flush p)
  /\ (forall p, currentTableName p <> "" ->
        result (flush p)
        = Some (<[currentTableName p := currentTable p]> (default ∅ (result p)))
        /\ currentTableName (flush p) = "" /\ currentTable (flush p) = None)
  /\ (forall p raw p', handleLine p raw = Ok p' ->
        result p' =
        if String.eqb (strings.TrimSpace raw) "COMMIT"
           || strings.HasPrefix (strings.TrimSpace raw) "*"
        then result (flush p) else result p)
  /\ (forall r p, scanLines parser_zero (Lines r) = Ok p ->
        err p = None -> Err r = None ->
        ParseIptablesSave r = Ok (result (flush p), None)).
Proof.
  split; [exact flush_closed|].
  split; [exact flush_idempotent|].
  split; [intros p H; rewrite (flush_open p H); auto|].
  split; [exact handleLine_result|].
  intros r p H He Hr.
  rewrite (ParseIptablesSave_after_scan r p H), He, Hr. reflexivity.
Qed.

Section LineKinds.

Context `{RP : RuleParser}.

Ltac dispatch H :=
  rewrite handleLine_eq; cbv zeta;
  apply HasPrefix_char in H as [? ->];
  cbn [String.eqb strings.HasPrefix Ascii.eqb Bool.eqb orb andb negb].

Lemma handleLine_table_header p raw :
  strings.HasPrefix (strings.TrimSpace raw) "*" = true ->
  handleLine p raw =
  Ok (with_currentTableName (flush (with_line p (int_incr (line p))))
        (strings.drop 1 (strings.TrimSpace raw))).
Proof. intros H. dispatch H. reflexivity. Qed.

Lemma handleLine_chain_header p raw :
  strings.HasPrefix (strings.TrimSpace raw) ":" = true ->
  handleLine p raw =
  Ok (handleNewChain (with_line p (int_incr (line p))) (strings.TrimSpace raw)).
Proof. intros H. dispatch H. reflexivity. Qed.

Lemma handleLine_rule_line p raw :
  strings.HasPrefix (strings.TrimSpace raw) "[" = true ->
  handleLine p raw =
  handleRule (with_line p (int_incr (line p))) (strings.TrimSpace raw).
Proof. intros H. dispatch H. reflexivity. Qed.

(** A rule line on which one of the two checks of [handleRule] fails is
    rejected with one error, that of the first check that fails, and
    leaves the tables alone. *)
Lemma handleRule_rejected q text :
  let subParser := runRuleParser (strings.Fields text) in
  countersOk subParser = false \/ chain subParser = "" ->
  handleRule q text =
  Ok (with_err q (errors.Join
        [err q;
         Some (ErrParse
           (mkParseError
              (if countersOk subParser then "expected -A chain ..."
               else "expected [packets:bytes]")
              (line q) text))])).
Proof.
  cbv zeta. unfold handleRule. cbv zeta.
  destruct (countersOk _) eqn:Hc; cbn [negb]; [|reflexivity].
  intros [?|Hn]; [discriminate|]. rewrite Hn. reflexivity.
Qed.

End LineKinds.

(** C4, as the parser has it.  A line that starts with a star is a table header: it
    gives the parser the rest of the line as the name of the open table.  If
    a table was open, that table is flushed into the result under its own
    name and the chain mapping of the new table starts out unallocated.  If
    no table was open, nothing is flushed and the chain mapping is left as
    it is: chains recorded since the last flush stay in it. *)
Theorem C4_table_header `{RP : RuleParser} (p : parser) (raw : string) :
  strings.HasPrefix (strings.TrimSpace raw) "*" = true ->
  exists p',
    handleLine p raw = Ok p'
    /\ currentTableName p' = strings.drop 1 (strings.TrimSpace raw)
    /\ err p' = err p
    /\ (currentTableName p <> "" ->
        result p'
        = Some (<[currentTableName p := currentTable p]> (default ∅ (result p)))
        /\ currentTable p' = None)
    /\ (currentTableName p = "" ->
        result p' = result p /\ currentTable p' = currentTable p).
Proof.
  intros H. rewrite (handleLine_table_header p raw H).
  eexists. split; [reflexivity|]. split; [reflexivity|].
  set (q := with_line p (int_incr (line p))).
  split; [apply (flush_fields q)|]. split.
  - intros Hn. simpl. rewrite (flush_open q Hn). auto.
  - intros Hn. simpl. rewrite (flush_closed q Hn). auto.
Qed.

(** C8.  A chain header with three fields, the third a valid
    counter token, stores under the chain's name (the first field without
    its colon) a Chain with the policy and the counters of the line and no
    rules, in the mapping of the open table, which is allocated if need be.
    Whatever was stored under that name before, rules included, is
    replaced. *)
Theorem C8_chain_header `{RP : RuleParser} (p : parser) (raw f0 f1 f2 : string)
    (pk bt : Z) :
  strings.HasPrefix (strings.TrimSpace raw) ":" = true ->
  strings.Fields (strings.TrimSpace raw) = [f0; f1; f2] ->
  parseCounters f2 = (pk, bt, true) ->
  exists p',
    handleLine p raw = Ok p'
    /\ currentTable p'
       = Some (<[strings.TrimPrefix f0 ":" := mkChain f1 pk bt []]>
                 (default ∅ (currentTable p)))
    /\ Table_get (currentTable p') (strings.TrimPrefix f0 ":") = mkChain f1 pk bt []
    /\ result p' = result p
    /\ currentTableName p' = currentTableName p
    /\ err p' = err p.
Proof.
  intros H Hf Hc. rewrite (handleLine_chain_header p raw H).
  eexists. split; [reflexivity|].
  unfold handleNewChain. rewrite Hf, Hc. cbn [negb].
  simpl. rewrite lookup_insert_eq. simpl.
  destruct (currentTable p); auto 10.
Qed.

(** ** Rule texts are distinct within a chain *)

Lemma ContainsFunc_texts (rs : list Rule) (t : string) :
  slices.ContainsFunc rs (fun rule => String.eqb (Rule_Rule rule) t) = true
  <-> t ∈ map Rule_Rule rs.
Proof.
  unfold slices.ContainsFunc. rewrite existsb_exists, list_elem_of_In, in_map_iff.
  split.
  - intros (x & Hx & He%String.eqb_eq). eauto.
  - intros (x & He & Hx). exists x. split; [exact Hx|]. apply String.eqb_eq, He.
Qed.

Lemma NoDup_snoc_texts (l : list string) (x : string) :
  NoDup l -> x ∉ l -> NoDup (l ++ [x]).
Proof.
  intros Hl Hx. apply NoDup_app. split; [exact Hl|].
  split; [|apply NoDup_singleton].
  intros y Hy Hin%list_elem_of_singleton. subst. contradiction.
Qed.

Lemma distinctTexts_get (t : Table) name :
  distinctTexts t -> NoDup (ruleTexts (Table_get t name)).
Proof.
  intros H. unfold Table_get. destruct t as [m|]; [|constructor].
  destruct (m !! name) as [c|] eqn:Hc; simpl; [eauto | constructor].
Qed.

Lemma distinctTexts_insert (t : Table) name c :
  distinctTexts t -> NoDup (ruleTexts c) ->
  distinctTexts (Some (<[name := c]> (default ∅ t))).
Proof.
  intros Ht Hc m name' c' [= <-] Hl.
  destruct (decide (name = name')) as [->|Hne].
  - rewrite lookup_insert_eq in Hl. congruence.
  - rewrite lookup_insert_ne in Hl by exact Hne.
    destruct t as [m|]; simpl in Hl; [eauto | rewrite lookup_empty in Hl; discriminate].
Qed.

Section Distinct.

Context `{RP : RuleParser}.

Lemma flush_distinct p : parser_distinct p -> parser_distinct (flush p).
Proof.
  intros [Hc Hr]. unfold flush.
  destruct (negb (String.eqb (currentTableName p) "")); [|split; assumption].
  split; simpl.
  - intros m name c [=].
  - intros tables tname t [= <-] Hl.
    destruct (decide (currentTableName p = tname)) as [Heq|Hne].
    + rewrite Heq, lookup_insert_eq in Hl. injection Hl as <-. exact Hc.
    + rewrite lookup_insert_ne in Hl by exact Hne.
      destruct (result p) as [m|]; [eauto | rewrite lookup_empty in Hl; discriminate].
Qed.

Lemma handleNewChain_distinct p text :
  parser_distinct p -> parser_distinct (handleNewChain p text).
Proof.
  intros [Hc Hr]. unfold handleNewChain.
  destruct (strings.Fields text) as [|f0 [|f1 [|f2 [|f3 fs]]]];
    try (split; assumption).
  destruct (parseCounters f2) as [[pk bt] [|]]; [|split; assumption].
  split; [|exact Hr]. simpl.
  apply (distinctTexts_insert (currentTable p)); [exact Hc | constructor].
Qed.

Lemma handleRule_distinct p text p' :
  parser_distinct p -> handleRule p text = Ok p' -> parser_distinct p'.
Proof.
  intros [Hc Hr]. unfold handleRule. cbv zeta.
  destruct (negb (countersOk _)); [intros [= <-]; split; assumption|].
  destruct (String.eqb (chain _) ""); [intros [= <-]; split; assumption|].
  destruct (slices.ContainsFunc _ _) eqn:Hdup; [intros [= <-]; split; assumption|].
  destruct (currentTable p) as [m|] eqn:Hm; [|discriminate].
  intros [= <-]. split; [|exact Hr]. simpl.
  apply (distinctTexts_insert (Some m)); [exact Hc|].
  unfold ruleTexts. simpl. rewrite map_app. simpl.
  apply NoDup_snoc_texts.
  - apply (distinctTexts_get (Some m)), Hc.
  - intros Hin. apply ContainsFunc_texts in Hin. simpl in Hdup. congruence.
Qed.

Lemma handleLine_distinct p raw p' :
  parser_distinct p -> handleLine p raw = Ok p' -> parser_distinct p'.
Proof.
  intros Hp. rewrite handleLine_eq. cbv zeta.
  set (text := strings.TrimSpace raw).
  set (q := with_line p (int_incr (line p))).
  assert (Hq : parser_distinct q) by exact Hp.
  destruct (String.eqb text "" || strings.HasPrefix text "#");
    [intros [= <-]; exact Hq|].
  destruct (String.eqb text "COMMIT");
    [intros [= <-]; apply flush_distinct, Hq|].
  destruct (strings.HasPrefix text "*");
    [intros [= <-]; apply (flush_distinct q), Hq|].
  destruct (strings.HasPrefix text ":");
    [intros [= <-]; apply handleNewChain_distinct, Hq|].
  destruct (strings.HasPrefix text "[");
    [apply handleRule_distinct, Hq|].
  intros [= <-]. exact Hq.
Qed.

Lemma scanLines_distinct lines : forall p p',
  parser_distinct p -> scanLines p lines = Ok p' -> parser_distinct p'.
Proof.
  induction lines as [|l rest IH]; intros p p' Hp; simpl.
  - intros [= <-]. exact Hp.
  - intros H. apply bind_Ok in H as (p1 & H1 & H2).
    eapply IH; [|exact H2]. eapply handleLine_distinct; eauto.
Qed.

Lemma parser_zero_distinct : parser_distinct parser_zero.
Proof. split; simpl; [intros m name c [=] | intros tables tname t [=]]. Qed.

Lemma ParseIptablesSave_returned r tables e :
  ParseIptablesSave r = Ok (Some tables, e) ->
  exists p, scanLines parser_zero (Lines r) = Ok p
            /\ result (flush p) = Some tables.
Proof.
  unfold ParseIptablesSave. intros H. apply bind_Ok in H as (p & Hs & H).
  exists p. split; [exact Hs|].
  destruct (err (flush p)); [discriminate|].
  destruct (Err r); [discriminate|]. congruence.
Qed.

End Distinct.

(** C2.  In every chain of the Tables that ParseIptablesSave
    returns the rule texts are pairwise distinct.  A rule line that passes
    the two checks either finds its text among the rules of its chain, and
    then the line changes nothing in the tables (so the first occurrence
    keeps its counters, whatever those of the line are), or it does not, and
    then the rule is appended after the rules the chain has, which keep their
    order; no other chain is touched. *)
Theorem C2_rule_texts_distinct_first_wins `{RP : RuleParser} :
  (forall r tables e tname t cname c,
     ParseIptablesSave r = Ok (Some tables, e) ->
     tables !! tname = Some (Some t) -> t !! cname = Some c ->
     NoDup (ruleTexts c))
  /\ (forall p raw p',
        let text := strings.TrimSpace raw in
        let subParser := runRuleParser (strings.Fields text) in
        let r := mkRule (packets subParser) (bytes subParser)
                        (strings.Join (flags subParser) " ") in
        let c := Table_get (currentTable p) (chain subParser) in
        strings.HasPrefix text "[" = true ->
        countersOk subParser = true -> chain subParser <> "" ->
        handleLine p raw = Ok p' ->
        result p' = result p
        /\ (Rule_Rule r ∈ ruleTexts c -> currentTable p' = currentTable p)
        /\ (Rule_Rule r ∉ ruleTexts c ->
            Table_get (currentTable p') (chain subParser)
            = mkChain (Policy c) (Packets c) (Bytes c) (Rules c ++ [r])
            /\ forall other, other <> chain subParser ->
                 Table_get (currentTable p') other
                 = Table_get (currentTable p) other)).
Proof.
  split.
  - intros r tables e tname t cname c H Ht Hc.
    apply ParseIptablesSave_returned in H as (p & Hs & Hr).
    assert (Hd : parser_distinct (flush p)).
    { apply flush_distinct. eapply scanLines_distinct; [|exact Hs].
      apply parser_zero_distinct. }
    destruct Hd as [_ Hd]. exact (Hd tables tname (Some t) Hr Ht t cname c eq_refl Hc).
  - intros p raw p' text subParser r c Hpre Hok Hchain.
    rewrite (handleLine_rule_line p raw Hpre). fold text.
    unfold handleRule. cbv zeta. fold subParser. rewrite Hok. cbn [negb].
    apply String.eqb_neq in Hchain. rewrite Hchain.
    change (currentTable (with_line p (int_incr (line p)))) with (currentTable p).
    fold r. fold c.
    destruct (slices.ContainsFunc (Rules c) _) eqn:Hdup.
    + intros [= <-]. split; [reflexivity|]. split; [reflexivity|].
      intros Hn. apply ContainsFunc_texts in Hdup. contradiction.
    + destruct (currentTable p) as [m|] eqn:Hm; [|discriminate].
      intros [= <-]. split; [reflexivity|]. split.
      * intros Hin. apply ContainsFunc_texts in Hin. congruence.
      * intros _. simpl. split.
        -- rewrite lookup_insert_eq. reflexivity.
        -- intros other Hne. rewrite lookup_insert_ne by congruence. reflexivity.
Qed.

(** A rule line that fails one of the two checks: what [handleLine] does. *)
Lemma handleLine_rule_rejected `{RP : RuleParser} (p : parser) (raw : string) :
  let text := strings.TrimSpace raw in
  let subParser := runRuleParser (strings.Fields text) in
  strings.HasPrefix text "[" = true ->
  countersOk subParser = false \/ chain subParser = "" ->
  exists p',
    handleLine p raw = Ok p'
    /\ parseErrorsOf (err p')
       = (parseErrorsOf (err p)
          ++ [mkParseError
                (if countersOk subParser then "expected -A chain ..."
                 else "expected [packets:bytes]")
                (int_incr (line p)) text])%list.
Proof.
  intros text subParser Hpre Hrej.
  rewrite (handleLine_rule_line p raw Hpre). fold text.
  rewrite (handleRule_rejected _ text Hrej). fold subParser.
  eexists. split; [reflexivity|]. simpl.
  apply parseErrorsOf_Join.
Qed.

(** C3, as the parser has it.  A rule line is a line that starts with a bracket.  If
    its counters did not resolve, the line is rejected with the one error
    "expected [packets:bytes]", whether it names a chain or not; the error
    "expected -A chain ..." is reported only for a line whose counters
    resolved and that names no chain.  So a rejected rule line adds exactly
    one error, that of the first check that fails, and the tables are left
    as they are. *)
Theorem C3_rule_line_first_failure_only `{RP : RuleParser} (p : parser)
    (raw : string) :
  let text := strings.TrimSpace raw in
  let subParser := runRuleParser (strings.Fields text) in
  strings.HasPrefix text "[" = true ->
  countersOk subParser = false \/ chain subParser = "" ->
  exists p',
    handleLine p raw = Ok p'
    /\ parseErrorsOf (err p')
       = (parseErrorsOf (err p)
          ++ [mkParseError
                (if countersOk subParser then "expected -A chain ..."
                 else "expected [packets:bytes]")
                (int_incr (line p)) text])%list
    /\ currentTable p' = currentTable p
    /\ result p' = result p.
Proof.
  intros text subParser Hpre Hrej.
  rewrite (handleLine_rule_line p raw Hpre). fold text.
  rewrite (handleRule_rejected _ text Hrej). fold subParser.
  eexists. split; [reflexivity|]. simpl.
  rewrite parseErrorsOf_Join. auto.
Qed.

(** ** The sub-parser of the specification resolves the counters from the
    first token only *)

Lemma spec_handleToken_started s token :
  sp_started s = true ->
  sp_started (spec_handleToken s token) = true
  /\ sp_countersOk (spec_handleToken s token) = sp_countersOk s.
Proof.
  intros H. unfold spec_handleToken. rewrite H.
  destruct (parseCounters token) as [[pk bt] ok]. cbn [negb andb].
  destruct (sp_afterA s); [auto|].
  destruct (String.eqb token "-A" && String.eqb (sp_chain s) ""); auto.
Qed.

Lemma spec_fold_started tokens : forall s,
  sp_started s = true ->
  sp_countersOk (fold_left spec_handleToken tokens s) = sp_countersOk s.
Proof.
  induction tokens as [|t rest IH]; intros s H; simpl; [reflexivity|].
  destruct (spec_handleToken_started s t H) as [H1 H2].
  rewrite (IH _ H1). exact H2.
Qed.

Lemma spec_countersOk (fields : list string) :
  countersOk (RuleParser := specRP) (runRuleParser fields)
  = match fields with
    | [] => false
    | token :: _ => countersResolved token
    end.
Proof.
  unfold runRuleParser. simpl.
  assert (Hf : forall s, sp_countersOk (spec_flush s) = sp_countersOk s).
  { intros s. unfold spec_flush. destruct (sp_afterA s); reflexivity. }
  rewrite Hf. destruct fields as [|token rest]; simpl; [reflexivity|].
  rewrite spec_fold_started.
  - unfold spec_handleToken, countersResolved. simpl.
    destruct (parseCounters token) as [[pk bt] [|]]; simpl; [reflexivity|].
    destruct (String.eqb token "-A"); reflexivity.
  - unfold spec_handleToken. simpl.
    destruct (parseCounters token) as [[pk bt] [|]]; simpl; [reflexivity|].
    destruct (String.eqb token "-A"); reflexivity.
Qed.

(** C7, as the parser has it.  parseCounters succeeds exactly on the tokens
    [<digits>:<digits>] whose two numbers are at most 2^64 - 1, and the
    counters it returns are those numbers.  A chain header with three fields
    whose third field is no such token, and a rule line (a line starting
    with a bracket) on which the sub-parser did not resolve the counters,
    are rejected with "expected [packets:bytes]"; with the sub-parser of the
    specification that is the case when the first token of the rule line is
    no such token.  A chain header that lacks the counter token altogether
    has no three fields, and is rejected with "expected 3 fields"
    instead. *)
Theorem C7_counter_tokens `{RP : RuleParser} :
  (forall field,
     countersResolved field = true
     <-> exists d1 d2,
           field = counterToken d1 d2 /\ isNumber d1 /\ isNumber d2
           /\ decimal d1 < 2 ^ 64 /\ decimal d2 < 2 ^ 64)
  /\ (forall field pk bt,
        parseCounters field = (pk, bt, true) ->
        0 <= pk < 2 ^ 64 /\ 0 <= bt < 2 ^ 64
        /\ exists d1 d2, field = counterToken d1 d2
                         /\ pk = decimal d1 /\ bt = decimal d2)
  /\ (forall p raw,
        let text := strings.TrimSpace raw in
        strings.HasPrefix text ":" = true ->
        exists p',
          handleLine p raw = Ok p'
          /\ parseErrorsOf (err p')
             = (parseErrorsOf (err p) ++
                match strings.Fields text with
                | [_; _; f2] =>
                    if countersResolved f2 then []
                    else [mkParseError "expected [packets:bytes]"
                            (int_incr (line p)) text]
                | _ => [mkParseError "expected 3 fields" (int_incr (line p)) text]
                end)%list)
  /\ (forall p raw,
        let text := strings.TrimSpace raw in
        strings.HasPrefix text "[" = true ->
        countersOk (runRuleParser (strings.Fields text)) = false ->
        exists p',
          handleLine p raw = Ok p'
          /\ parseErrorsOf (err p')
             = (parseErrorsOf (err p)
                ++ [mkParseError "expected [packets:bytes]"
                      (int_incr (line p)) text])%list)
  /\ (forall fields,
        countersOk (RuleParser := specRP) (runRuleParser fields)
        = match fields with
          | [] => false
          | token :: _ => countersResolved token
          end).
Proof.
  assert (Hmax : strconv.maxUint64 = 2 ^ 64 - 1) by reflexivity.
  split; [|split; [|split; [|split]]].
  - intros field. unfold countersResolved.
    destruct (parseCounters field) as [[pk bt] ok] eqn:Hp. simpl. split.
    + intros ->. apply parseCounters_ok in Hp
        as (d1 & d2 & Hf & H1 & H2 & Hl1 & Hl2 & _).
      exists d1, d2. rewrite Hmax in Hl1, Hl2.
      split; [exact Hf|]. split; [exact H1|]. split; [exact H2|]. lia.
    + intros (d1 & d2 & Hf & H1 & H2 & Hl1 & Hl2).
      assert (Hok : parseCounters field = (decimal d1, decimal d2, true)).
      { apply parseCounters_ok. exists d1, d2. rewrite Hmax.
        split; [exact Hf|]. split; [exact H1|]. split; [exact H2|].
        split; [lia|]. split; [lia|]. split; reflexivity. }
      congruence.
  - intros field pk bt Hp.
    apply parseCounters_ok in Hp as (d1 & d2 & Hf & H1 & H2 & Hl1 & Hl2 & -> & ->).
    pose proof (decimal_nonneg d1 (proj2 H1)).
    pose proof (decimal_nonneg d2 (proj2 H2)).
    rewrite Hmax in Hl1, Hl2.
    split; [lia|]. split; [lia|]. eauto.
  - intros p raw text Hpre. rewrite (handleLine_chain_header p raw Hpre). fold text.
    eexists. split; [reflexivity|].
    destruct (handleNewChain_fields (with_line p (int_incr (line p))) text)
      as (_ & _ & _ & ->). simpl.
    destruct (strings.Fields text) as [|f0 [|f1 [|f2 [|f3 fs]]]];
      try apply parseErrorsOf_Join.
    destruct (countersResolved f2);
      [symmetry; apply app_nil_r | apply parseErrorsOf_Join].
  - intros p raw text Hpre Hc.
    destruct (handleLine_rule_rejected p raw Hpre (or_introl Hc)) as (p' & H & He).
    fold text in H, He. rewrite Hc in He. eauto.
  - exact spec_countersOk.
Qed.

(** ** A rule line and a table that is not allocated *)

(** In an allocated table a rule line for a chain that the table does not
    have is stored under a chain made from the zero value: no policy, zero
    counters, and the rule. *)
Lemma handleRule_missing_chain `{RP : RuleParser} (p : parser) (text : string)
    (m : gmap string Chain) :
  let subParser := runRuleParser (strings.Fields text) in
  let r := mkRule (packets subParser) (bytes subParser)
                  (strings.Join (flags subParser) " ") in
  countersOk subParser = true -> chain subParser <> "" ->
  currentTable p = Some m -> m !! chain subParser = None ->
  handleRule p text
  = Ok (with_currentTable p (Some (<[chain subParser := mkChain "" 0 0 [r]]> m))).
Proof.
  intros subParser r Hok Hchain Hm Hnone.
  unfold handleRule. cbv zeta. fold subParser. rewrite Hok. cbn [negb].
  apply String.eqb_neq in Hchain. rewrite Hchain, Hm. simpl. rewrite Hnone.
  reflexivity.
Qed.

(** With no allocated table a rule line that passes the two checks makes the
    parser panic, whatever the sub-parser is. *)
Lemma handleRule_nil_table `{RP : RuleParser} (p : parser) (text : string) :
  let subParser := runRuleParser (strings.Fields text) in
  countersOk subParser = true -> chain subParser <> "" ->
  currentTable p = None ->
  handleRule p text = Panic "assignment to entry in nil map".
Proof.
  intros subParser Hok Hchain Hnil.
  unfold handleRule. cbv zeta. fold subParser. rewrite Hok. cbn [negb].
  apply String.eqb_neq in Hchain. rewrite Hchain, Hnil. reflexivity.
Qed.

(** C5 does not hold of the parser.  In the first input the rule line is
    the first line of its table that touches a chain: the table is not
    allocated yet, [handleRule] reads the zero-valued chain from it and then
    assigns into the nil map, and the parse panics instead of returning a
    table with the chain.  In the second input a header of another chain has
    allocated the table, and the chain of the rule line is stored with no
    policy, zero counters and the rule. *)
Theorem C5_rule_before_chain_header_panics :
  ParseIptablesSave (mkScanner rule_before_header None)
  = Panic "assignment to entry in nil map"
  /\ ParseIptablesSave (mkScanner rule_after_other_header None)
     = Ok (Some {[ "filter" :=
                     Some {[ "OUTPUT" := mkChain "ACCEPT" 0 0 [];
                             "INPUT" := mkChain "" 0 0 [mkRule 1 2 "-j ACCEPT"] ]} ]},
           None).
Proof. split; vm_compute; reflexivity. Qed.

(** C1 does not hold of the parser.  The claim is that whenever a line is
    rejected ParseIptablesSave returns the aggregate of the errors and no
    Tables value, every line having been dispatched.  The first line of this
    input is rejected; the third is a rule line in a table that is not
    allocated, and the parse panics there: nothing is returned.  For the
    scans that reach the end of the input the claim is
    [ParseIptablesSave_reports_all]. *)
Theorem C1_panic_instead_of_aggregate_error :
  lineErrors 0 rejected_then_rule_before_header
  = [mkParseError "unhandled line" 1 "bogus"]
  /\ ParseIptablesSave (mkScanner rejected_then_rule_before_header None)
     = Panic "assignment to entry in nil map".
Proof. split; vm_compute; reflexivity. Qed.

(** C10 does not hold of the parser.  The claim is that when lines are
    rejected and the reader fails as well, ParseIptablesSave returns the
    aggregate parse error and not the read error.  On the same input, with a
    read error at its end, the parse panics at the third line and returns
    neither.  For the scans that reach the end of the input the precedence
    is [ParseIptablesSave_reports_all] and [ParseIptablesSave_read_error]. *)
Theorem C10_panic_instead_of_parse_error :
  lineErrors 0 rejected_then_rule_before_header <> []
  /\ ParseIptablesSave
       (mkScanner rejected_then_rule_before_header
                  (Some (ErrRead "unexpected EOF")))
     = Panic "assignment to entry in nil map".
Proof. split; [vm_compute; discriminate | vm_compute; reflexivity]. Qed.

(** A run that fails leaves the default logger changed: here the logger
    keeps the lines it is given, and after the run it holds the message of
    the two rejected lines. *)
Example ParseIptablesSave_logging_ex :
  ParseIptablesSave_logging (RP := specRP) (list string) keepLines []
    (mkScanner scenario4 None)
  = (Ok (None, Some scenario4_error),
     [("failed to parse iptables-save err="
       ++ "expected 3 fields at line 2: :INPUT ACCEPT" ++ newline
       ++ "unhandled line at line 3: bogus")%string]).
Proof. vm_compute. reflexivity. Qed.


(** ** Counterexamples to the claims as they are stated *)

(** C3 as stated fails: on this rule line the counter token is malformed
    and there is no -A pair, and only the error of the counters is
    reported. *)
Lemma C3_counterexample :
  countersOk (runRuleParser (strings.Fields "[x] -j ACCEPT")) = false
  /\ chain (runRuleParser (strings.Fields "[x] -j ACCEPT")) = ""
  /\ exists p',
       handleLine parser_zero "[x] -j ACCEPT" = Ok p'
       /\ parseErrorsOf (err p')
          = [mkParseError "expected [packets:bytes]" 1 "[x] -j ACCEPT"]
       /\ ~ In (mkParseError "expected -A chain ..." 1 "[x] -j ACCEPT")
              (parseErrorsOf (err p')).
Proof.
  split; [reflexivity|]. split; [reflexivity|].
  eexists. split; [vm_compute; reflexivity|]. split; [reflexivity|].
  simpl. intros [H|[]]. discriminate.
Qed.

(** C4 as stated fails: the chain header comes before the table header, no
    table is open when the header is handled, and the chain is in the
    mapping of the new table and in the table committed under its name. *)
Lemma C4_counterexample :
  (exists p p',
     scanLines parser_zero [":INPUT ACCEPT [1:2]"] = Ok p
     /\ handleLine p "*filter" = Ok p'
     /\ currentTableName p' = "filter"
     /\ currentTable p' = Some {[ "INPUT" := mkChain "ACCEPT" 1 2 [] ]})
  /\ ParseIptablesSave (mkScanner chain_before_table None)
     = Ok (Some {[ "filter" := Some {[ "INPUT" := mkChain "ACCEPT" 1 2 [] ]} ]},
           None).
Proof.
  split.
  - eexists. eexists. split; [vm_compute; reflexivity|].
    split; [vm_compute; reflexivity|]. split; reflexivity.
  - vm_compute. reflexivity.
Qed.

(** C7 as stated fails: this chain header has no counter token, and the
    error it is rejected with is that of the field count, not that of the
    counters. *)
Lemma C7_counterexample :
  exists p',
    handleLine parser_zero ":INPUT ACCEPT" = Ok p'
    /\ parseErrorsOf (err p') = [mkParseError "expected 3 fields" 1 ":INPUT ACCEPT"]
    /\ ~ In (mkParseError "expected [packets:bytes]" 1 ":INPUT ACCEPT")
           (parseErrorsOf (err p')).
Proof.
  eexists. split; [vm_compute; reflexivity|]. split; [reflexivity|].
  simpl. intros [H|[]]. discriminate.
Qed.

(** ** The theorems at concrete inputs *)

Lemma C2_witness :
  NoDup (ruleTexts
           (mkChain "ACCEPT" 10 500
              [mkRule 10 500 "-p tcp -m tcp --dport 22 -j ACCEPT"])).
Proof.
  apply (proj1 C2_rule_texts_distinct_first_wins
               (mkScanner scenario2 None) scenario1_tables None
               "filter"
               {[ "INPUT" :=
                    mkChain "ACCEPT" 10 500
                      [mkRule 10 500 "-p tcp -m tcp --dport 22 -j ACCEPT"] ]}
               "INPUT" _);
    vm_compute; reflexivity.
Defined.

Lemma C3_witness :
  strings.HasPrefix (strings.TrimSpace "[1:2] -j ACCEPT") "[" = true
  /\ chain (runRuleParser (strings.Fields "[1:2] -j ACCEPT")) = ""
  /\ exists p',
       handleLine parser_zero "[1:2] -j ACCEPT" = Ok p'
       /\ parseErrorsOf (err p')
          = [mkParseError "expected -A chain ..." 1 "[1:2] -j ACCEPT"].
Proof.
  split; [reflexivity|]. split; [reflexivity|].
  destruct (C3_rule_line_first_failure_only parser_zero "[1:2] -j ACCEPT"
              eq_refl ltac:(right; reflexivity)) as (p' & H & He & _).
  exists p'. split; [exact H | exact He].
Defined.

Lemma C4_witness :
  strings.HasPrefix (strings.TrimSpace "*nat") "*" = true
  /\ exists p',
       handleLine filter_open "*nat" = Ok p'
       /\ currentTableName p' = "nat"
       /\ currentTable p' = None
       /\ result p'
          = Some {[ "filter" :=
                      Some {[ "INPUT" :=
                                mkChain "ACCEPT" 1 2 [mkRule 5 6 "-j DROP"] ]} ]}.
Proof.
  split; [reflexivity|].
  destruct (C4_table_header filter_open "*nat" eq_refl)
    as (p' & H & Hn & _ & Hopen & _).
  destruct (Hopen ltac:(discriminate)) as [Hr Ht].
  exists p'. split; [exact H|]. split; [exact Hn|]. split; [exact Ht|].
  rewrite Hr. vm_compute. reflexivity.
Defined.

Lemma C6_witness :
  exists p,
    scanLines parser_zero unterminated = Ok p
    /\ currentTableName p = "nat"
    /\ ParseIptablesSave (mkScanner unterminated None)
       = Ok (Some {[ "nat" := Some {[ "PREROUTING" := mkChain "ACCEPT" 3 4 [] ]} ]},
             None).
Proof.
  eexists. split; [vm_compute; reflexivity|]. split; [reflexivity|].
  rewrite (proj2 (proj2 (proj2 (proj2 C6_commit_at_three_moments)))
             (mkScanner unterminated None) _ ltac:(vm_compute; reflexivity)
             eq_refl eq_refl).
  vm_compute. reflexivity.
Defined.

Lemma C7_witness :
  countersResolved "[10:500]" = true
  /\ countersResolved "[18446744073709551616:0]" = false.
Proof.
  split.
  - apply (proj1 C7_counter_tokens). exists "10", "500".
    split; [reflexivity|].
    split; [split; [discriminate | reflexivity]|].
    split; [split; [discriminate | reflexivity]|].
    split; vm_compute; reflexivity.
  - vm_compute. reflexivity.
Defined.

Lemma C8_witness :
  exists p',
    handleLine filter_open ":INPUT DROP [10:500]" = Ok p'
    /\ Table_get (currentTable p') "INPUT" = mkChain "DROP" 10 500 [].
Proof.
  destruct (C8_chain_header filter_open ":INPUT DROP [10:500]"
              ":INPUT" "DROP" "[10:500]" 10 500 eq_refl eq_refl eq_refl)
    as (p' & H & _ & Hg & _).
  exists p'. split; [exact H | exact Hg].
Defined.

(** * More of the parser

    ** The inputs on which the parser panics *)

Section CrashFreeFacts.

Context `{RP : RuleParser}.

Lemma flush_state p :
  isOpen (flush p) = false
  /\ isAllocated (flush p) = isAllocated p && negb (isOpen p).
Proof.
  unfold flush, isOpen, isAllocated.
  destruct (String.eqb (currentTableName p) "") eqn:H; cbn [negb].
  - rewrite H, andb_true_r. auto.
  - simpl. rewrite andb_false_r. auto.
Qed.

Lemma handleNewChain_state q text :
  isOpen (handleNewChain q text) = isOpen q
  /\ isAllocated (handleNewChain q text) = isAllocated q || headerAccepted text.
Proof.
  unfold handleNewChain, headerAccepted, countersResolved, isOpen, isAllocated.
  destruct (strings.Fields text) as [|f0 [|f1 [|f2 [|f3 fs]]]]; simpl;
    rewrite ?orb_false_r; auto.
  destruct (parseCounters f2) as [[pk bt] [|]]; simpl;
    rewrite ?orb_false_r, ?orb_true_r; auto.
Qed.

Lemma handleRule_state q text :
  match handleRule q text with
  | Ok q' =>
      isOpen q' = isOpen q /\ isAllocated q' = isAllocated q
      /\ (ruleAccepted text = true -> isAllocated q = true)
  | Panic msg =>
      msg = "assignment to entry in nil map"
      /\ ruleAccepted text = true /\ isAllocated q = false
  end.
Proof.
  unfold handleRule, ruleAccepted, isOpen, isAllocated. cbv zeta.
  destruct (countersOk _); cbn [negb andb]; [|simpl; intuition discriminate].
  destruct (String.eqb (chain _) ""); cbn [negb]; [simpl; intuition discriminate|].
  destruct (currentTable q) as [m|] eqn:Hm.
  - destruct (slices.ContainsFunc _ _); simpl; rewrite ?Hm; auto.
  - simpl. auto.
Qed.

(** One line: the panic and the state after the line, read off the line and
    the two facts about the parser. *)
Lemma scanLines_crashFree lines : forall p,
  match scanLines p lines with
  | Ok _ => crashFree (isOpen p) (isAllocated p) lines = true
  | Panic msg =>
      msg = "assignment to entry in nil map"
      /\ crashFree (isOpen p) (isAllocated p) lines = false
  end.
Proof.
  induction lines as [|raw rest IH]; intros p; [reflexivity|].
  cbn [scanLines crashFree]. rewrite handleLine_eq. cbv zeta.
  set (text := strings.TrimSpace raw).
  set (q := with_line p (int_incr (line p))).
  change (isOpen p) with (isOpen q). change (isAllocated p) with (isAllocated q).
  destruct (String.eqb text "" || strings.HasPrefix text "#"); [apply (IH q)|].
  destruct (String.eqb text "COMMIT").
  { cbn [bind]. specialize (IH (flush q)).
    destruct (flush_state q) as [Ho Ha]. rewrite Ho, Ha in IH. exact IH. }
  destruct (strings.HasPrefix text "*").
  { cbn [bind].
    specialize (IH (with_currentTableName (flush q) (strings.drop 1 text))).
    destruct (flush_state q) as [_ Ha].
    change (isAllocated (with_currentTableName (flush q) (strings.drop 1 text)))
      with (isAllocated (flush q)) in IH.
    rewrite Ha in IH. exact IH. }
  destruct (strings.HasPrefix text ":").
  { cbn [bind]. specialize (IH (handleNewChain q text)).
    destruct (handleNewChain_state q text) as [Ho Ha]. rewrite Ho, Ha in IH.
    exact IH. }
  destruct (strings.HasPrefix text "[");
    [|cbn [bind];
      exact (IH (with_err q (errors.Join
                   [err q; Some (ErrParse
                      (mkParseError "unhandled line" (line q) text))])))].
  pose proof (handleRule_state q text) as Hr.
  destruct (handleRule q text) as [q'|msg]; cbn [bind].
  - destruct Hr as (Ho & Ha & Hacc). specialize (IH q').
    rewrite Ho, Ha in IH.
    destruct (ruleAccepted text).
    + rewrite (Hacc eq_refl) in *. exact IH.
    + exact IH.
  - destruct Hr as (-> & -> & ->). auto.
Qed.

End CrashFreeFacts.

(** X1.  ParseIptablesSave returns exactly on the inputs in which every
    accepted rule line comes after an accepted chain header with no table
    header of an open table and no COMMIT of an open table in between; on
    every other input it panics with the message of the assignment to an
    entry of a nil map. *)
Theorem X1_returns_iff_crash_free `{RP : RuleParser} (r : Scanner) :
  (crashFree false false (Lines r) = true ->
   exists res, ParseIptablesSave r = Ok res)
  /\ (crashFree false false (Lines r) = false ->
      ParseIptablesSave r = Panic "assignment to entry in nil map").
Proof.
  unfold ParseIptablesSave.
  pose proof (scanLines_crashFree (Lines r) parser_zero) as H.
  change (isOpen parser_zero) with false in H.
  change (isAllocated parser_zero) with false in H.
  destruct (scanLines parser_zero (Lines r)) as [p|msg]; cbn [bind].
  - split; [|congruence]. intros _.
    destruct (err (flush p)); [eauto|]. destruct (Err r); eauto.
  - destruct H as [-> H]. split; [congruence | reflexivity].
Qed.

(** X2.  On an input that is free of the panic and has a rejected line,
    ParseIptablesSave returns no Tables value and an error that wraps one
    ParseError for each rejected line, in the order of the lines and with
    their numbers, whatever the scanner reports. *)
Theorem X2_one_error_per_rejected_line `{RP : RuleParser} (r : Scanner) :
  crashFree false false (Lines r) = true ->
  lineErrors 0 (Lines r) <> [] ->
  exists e,
    ParseIptablesSave r = Ok (None, Some e)
    /\ parseErrors e = lineErrors 0 (Lines r).
Proof.
  intros Hc Hne.
  pose proof (scanLines_crashFree (Lines r) parser_zero) as H.
  destruct (scanLines parser_zero (Lines r)) as [p|msg] eqn:Hs.
  - rewrite (ParseIptablesSave_after_scan r p Hs).
    apply scanLines_err in Hs as (_ & He & Hnil). simpl in He.
    destruct (err p) as [e|]; [eauto|].
    destruct (proj1 Hnil eq_refl) as [_ Habs]. contradiction.
  - destruct H as [_ H]. change (crashFree false false (Lines r) = false) in H.
    congruence.
Qed.

(** ** The names of the tables of the result *)

Lemma headerNames_cons raw rest :
  headerNames (raw :: rest) = (headerNames [raw] ++ headerNames rest)%list.
Proof.
  cbn [headerNames]. cbv zeta.
  destruct (strings.HasPrefix _ "*" && negb (String.eqb _ "")); reflexivity.
Qed.

Lemma headerNames_not_empty lines : "" ∉ headerNames lines.
Proof.
  induction lines as [|raw rest IH]; cbn [headerNames]; cbv zeta.
  - apply not_elem_of_nil.
  - set (nm := strings.drop 1 (strings.TrimSpace raw)).
    destruct (strings.HasPrefix _ "*"); cbn [andb]; [|exact IH].
    destruct (String.eqb_spec nm "") as [He|Hne]; cbn [negb]; [exact IH|].
    intros [Heq|Hin]%elem_of_cons; [congruence | exact (IH Hin)].
Qed.

Section TableNames.

Context `{RP : RuleParser}.

Lemma flush_holdsTable p n : holdsTable (flush p) n <-> holdsTable p n.
Proof.
  unfold flush, holdsTable.
  destruct (String.eqb_spec (currentTableName p) "") as [He|Hne]; simpl;
    [tauto|].
  split.
  - intros [(m & t & [= <-] & Hl)|[-> Habs]]; [|congruence].
    destruct (decide (currentTableName p = n)) as [Heq|Hn]; [right; split; congruence|].
    rewrite lookup_insert_ne in Hl by exact Hn.
    destruct (result p) as [m|]; [left; eauto|].
    rewrite lookup_empty in Hl. discriminate.
  - intros [(m & t & Hr & Hl)|[-> _]]; left.
    + rewrite Hr. destruct (decide (currentTableName p = n)) as [Heq|Hn].
      * eexists _, _. split; [reflexivity|]. rewrite Heq. apply lookup_insert_eq.
      * eexists _, _. split; [reflexivity|].
        rewrite lookup_insert_ne by exact Hn. exact Hl.
    + eexists _, _. split; [reflexivity|]. apply lookup_insert_eq.
Qed.

Lemma flush_name p : currentTableName (flush p) = "".
Proof.
  unfold flush. destruct (String.eqb_spec (currentTableName p) ""); simpl; auto.
Qed.

Lemma flush_inhabited p : inhabitedResult p -> inhabitedResult (flush p).
Proof.
  unfold flush, inhabitedResult.
  destruct (negb (String.eqb (currentTableName p) "")); [|auto].
  simpl. intros _ m [= <-]. eexists _, _. apply lookup_insert_eq.
Qed.

Lemma handleLine_holdsTable p raw p' n :
  handleLine p raw = Ok p' ->
  (holdsTable p' n <-> holdsTable p n \/ n ∈ headerNames [raw])
  /\ (inhabitedResult p -> inhabitedResult p').
Proof.
  rewrite handleLine_eq. cbn [headerNames]. cbv zeta.
  set (text := strings.TrimSpace raw).
  set (q := with_line p (int_incr (line p))).
  assert (Hnil : forall P : Prop, P <-> P \/ n ∈ @nil string).
  { intros P. rewrite elem_of_nil. tauto. }
  destruct (String.eqb text "" || strings.HasPrefix text "#") eqn:Hb.
  { intros [= <-]. split; [|auto].
    replace (strings.HasPrefix text "*") with false; [apply (Hnil (holdsTable q n))|].
    apply orb_true_iff in Hb as [Hb|Hb].
    - apply String.eqb_eq in Hb. rewrite Hb. reflexivity.
    - apply HasPrefix_char in Hb as [s' ->]. reflexivity. }
  destruct (String.eqb_spec text "COMMIT") as [Hc|Hc].
  { intros [= <-]. split; [|apply (flush_inhabited q)].
    rewrite Hc. cbn [strings.HasPrefix Ascii.eqb Bool.eqb andb].
    rewrite (flush_holdsTable q n). apply (Hnil (holdsTable q n)). }
  destruct (strings.HasPrefix text "*").
  { intros [= <-]. split; [|apply (flush_inhabited q)].
    cbn [andb]. set (nm := strings.drop 1 text).
    unfold holdsTable at 1, with_currentTableName.
    cbn [result currentTableName].
    pose proof (flush_holdsTable q n) as Hf. unfold holdsTable at 1 in Hf.
    rewrite (flush_name q) in Hf.
    destruct (String.eqb_spec nm "") as [He|Hne]; cbn [negb].
    - rewrite elem_of_nil. split.
      + intros [H|[Hn Habs]]; [|subst n; destruct (Habs He)].
        left. apply Hf. left. exact H.
      + intros [H|[]]. apply Hf in H as [H|[Hn' Habs]]; [left; exact H|].
        destruct (Habs Hn').
    - rewrite list_elem_of_singleton. split.
      + intros [H|[Hn _]]; [|right; exact Hn]. left. apply Hf. left. exact H.
      + intros [H|Hn]; [|right; split; [exact Hn | rewrite Hn; exact Hne]].
        apply Hf in H as [H|[Hn' Habs]]; [left; exact H|].
        destruct (Habs Hn'). }
  cbn [andb]. destruct (strings.HasPrefix text ":").
  { intros [= <-]. unfold holdsTable, inhabitedResult.
    destruct (handleNewChain_fields q text) as (_ & -> & -> & _).
    split; [apply (Hnil (holdsTable q n)) | auto]. }
  destruct (strings.HasPrefix text "[").
  { intros H. apply handleRule_fields in H as (_ & Hr & Hn & _).
    unfold holdsTable, inhabitedResult. rewrite Hr, Hn.
    split; [apply (Hnil (holdsTable q n)) | auto]. }
  intros [= <-]. split; [apply (Hnil (holdsTable q n)) | auto].
Qed.

Lemma scanLines_holdsTable lines : forall p p' n,
  scanLines p lines = Ok p' ->
  (holdsTable p' n <-> holdsTable p n \/ n ∈ headerNames lines)
  /\ (inhabitedResult p -> inhabitedResult p').
Proof.
  induction lines as [|raw rest IH]; intros p p' n; cbn [scanLines].
  - intros [= <-]. cbn [headerNames]. rewrite elem_of_nil. tauto.
  - intros H. apply bind_Ok in H as (p1 & H1 & H2).
    destruct (handleLine_holdsTable p raw p1 n H1) as [Hk1 Hi1].
    destruct (IH p1 p' n H2) as [Hk2 Hi2].
    split; [|auto].
    rewrite Hk2, Hk1, (headerNames_cons raw rest), elem_of_app. tauto.
Qed.

End TableNames.

(** X3.  When ParseIptablesSave returns Tables, their keys are the non-empty
    names of the table headers of the input: a table is in the result if and
    only if the input declares it, the empty name is never a key, and the
    Tables value is nil exactly when the input has no such header. *)
Theorem X3_tables_are_the_declared_ones `{RP : RuleParser} (r : Scanner)
    (res : Tables) :
  ParseIptablesSave r = Ok (res, None) ->
  (forall n, n ∈ headerNames (Lines r)
             <-> exists m t, res = Some m /\ m !! n = Some t)
  /\ (forall m, res = Some m -> m !! "" = None)
  /\ (res = None <-> headerNames (Lines r) = []).
Proof.
  unfold ParseIptablesSave. intros H. apply bind_Ok in H as (p & Hs & H).
  assert (Hres : res = result (flush p)).
  { destruct (err (flush p)); [discriminate|].
    destruct (Err r); [discriminate|]. congruence. }
  assert (Hkeys : forall n, n ∈ headerNames (Lines r)
                            <-> exists m t, res = Some m /\ m !! n = Some t).
  { intros n. destruct (scanLines_holdsTable _ _ _ n Hs) as [Hk _].
    rewrite <- (flush_holdsTable p n) in Hk. unfold holdsTable in Hk.
    rewrite (flush_name p), <- Hres in Hk. simpl in Hk. split.
    - intros Hin. destruct (proj2 Hk (or_intror Hin)) as [Hm|[-> Habs]];
        [exact Hm | congruence].
    - intros Hm.
      destruct (proj1 Hk (or_introl Hm)) as [[(m & t & Habs & _)|[Hn Hne]]|Hin];
        [discriminate | destruct (Hne Hn) | exact Hin]. }
  split; [exact Hkeys|]. split.
  - intros m Hm. destruct (m !! "") as [t|] eqn:Hl; [|reflexivity].
    assert (Hin : "" ∈ headerNames (Lines r)) by (apply Hkeys; eauto).
    destruct (headerNames_not_empty (Lines r) Hin).
  - split.
    + intros -> . destruct (headerNames (Lines r)) as [|n ns] eqn:Hn; [reflexivity|].
      assert (Hin : n ∈ n :: ns) by left.
      apply Hkeys in Hin as (m & t & [=] & _).
    + intros Hn. destruct res as [m|] eqn:Hm; [|reflexivity].
      destruct (scanLines_holdsTable _ _ _ "" Hs) as [_ Hi].
      destruct (flush_inhabited p (Hi ltac:(intros ? [=])) m (eq_sym Hres))
        as (n & t & Hl).
      assert (Hin : n ∈ headerNames (Lines r)) by (apply Hkeys; eauto).
      rewrite Hn in Hin. apply elem_of_nil in Hin. contradiction.
Qed.

(** ** The counters of the chains of the result *)

Section InRange.

Context `{RP : RuleParser}.

Lemma tableInRange_insert (t : Table) name c :
  tableInRange t -> chainInRange c ->
  tableInRange (Some (<[name := c]> (default ∅ t))).
Proof.
  intros Ht Hc m name' c' [= <-] Hl.
  destruct (decide (name = name')) as [->|Hne].
  - rewrite lookup_insert_eq in Hl. congruence.
  - rewrite lookup_insert_ne in Hl by exact Hne.
    destruct t as [m|]; simpl in Hl; [eauto | rewrite lookup_empty in Hl; discriminate].
Qed.

Lemma tableInRange_get (t : Table) name :
  tableInRange t -> chainInRange (Table_get t name).
Proof.
  intros H. unfold Table_get.
  assert (Hz : chainInRange Chain_zero) by (repeat split; simpl; lia).
  destruct t as [m|]; [|exact Hz].
  destruct (m !! name) as [c|] eqn:Hc; simpl; [eauto | exact Hz].
Qed.

Lemma flush_inRange p : parserInRange p -> parserInRange (flush p).
Proof.
  intros [Hc Hr]. unfold flush.
  destruct (negb (String.eqb (currentTableName p) "")); [|split; assumption].
  split; simpl.
  - intros m name c [=].
  - intros tables tname t [= <-] Hl.
    destruct (decide (currentTableName p = tname)) as [Heq|Hne].
    + rewrite Heq, lookup_insert_eq in Hl. injection Hl as <-. exact Hc.
    + rewrite lookup_insert_ne in Hl by exact Hne.
      destruct (result p) as [m|]; [eauto | rewrite lookup_empty in Hl; discriminate].
Qed.

Lemma handleNewChain_inRange p text :
  parserInRange p -> parserInRange (handleNewChain p text).
Proof.
  intros [Hc Hr]. unfold handleNewChain.
  destruct (strings.Fields text) as [|f0 [|f1 [|f2 [|f3 fs]]]];
    try (split; assumption).
  destruct (parseCounters f2) as [[pk bt] [|]] eqn:Hp; [|split; assumption].
  split; [|exact Hr]. simpl.
  apply (tableInRange_insert (currentTable p)); [exact Hc|].
  apply parseCounters_ok in Hp
    as (d1 & d2 & _ & [_ H1] & [_ H2] & Hl1 & Hl2 & -> & ->).
  pose proof (decimal_nonneg d1 H1). pose proof (decimal_nonneg d2 H2).
  unfold strconv.maxUint64 in *. split; split; simpl; lia.
Qed.

Lemma handleRule_inRange p text p' :
  parserInRange p -> handleRule p text = Ok p' -> parserInRange p'.
Proof.
  intros [Hc Hr]. unfold handleRule. cbv zeta.
  destruct (negb (countersOk _)); [intros [= <-]; split; assumption|].
  destruct (String.eqb (chain _) ""); [intros [= <-]; split; assumption|].
  destruct (slices.ContainsFunc _ _); [intros [= <-]; split; assumption|].
  destruct (currentTable p) as [m|] eqn:Hm; [|discriminate].
  intros [= <-]. split; [|exact Hr]. simpl.
  apply (tableInRange_insert (Some m)); [exact Hc|].
  apply (tableInRange_get (Some m) (chain (runRuleParser (strings.Fields text)))), Hc.
Qed.

Lemma handleLine_inRange p raw p' :
  parserInRange p -> handleLine p raw = Ok p' -> parserInRange p'.
Proof.
  intros Hp. rewrite handleLine_eq. cbv zeta.
  set (text := strings.TrimSpace raw).
  set (q := with_line p (int_incr (line p))).
  assert (Hq : parserInRange q) by exact Hp.
  destruct (String.eqb text "" || strings.HasPrefix text "#");
    [intros [= <-]; exact Hq|].
  destruct (String.eqb text "COMMIT");
    [intros [= <-]; apply flush_inRange, Hq|].
  destruct (strings.HasPrefix text "*");
    [intros [= <-]; apply (flush_inRange q), Hq|].
  destruct (strings.HasPrefix text ":");
    [intros [= <-]; apply handleNewChain_inRange, Hq|].
  destruct (strings.HasPrefix text "[");
    [apply handleRule_inRange, Hq|].
  intros [= <-]. exact Hq.
Qed.

Lemma scanLines_inRange lines : forall p p',
  parserInRange p -> scanLines p lines = Ok p' -> parserInRange p'.
Proof.
  induction lines as [|l rest IH]; intros p p' Hp; simpl.
  - intros [= <-]. exact Hp.
  - intros H. apply bind_Ok in H as (p1 & H1 & H2).
    eapply IH; [|exact H2]. eapply handleLine_inRange; eauto.
Qed.

End InRange.

(** X4.  The default counters of every chain of the Tables that
    ParseIptablesSave returns are within uint64: they are the two numbers of
    a counter token that parseCounters accepted, or the zeros of a chain
    that a rule line created. *)
Theorem X4_chain_counters_in_range `{RP : RuleParser} (r : Scanner)
    (tables : gmap string (option (gmap string Chain))) (e : option error)
    (tname cname : string) (t : gmap string Chain) (c : Chain) :
  ParseIptablesSave r = Ok (Some tables, e) ->
  tables !! tname = Some (Some t) -> t !! cname = Some c ->
  0 <= Packets c < 2 ^ 64 /\ 0 <= Bytes c < 2 ^ 64.
Proof.
  intros H Ht Hc. apply ParseIptablesSave_returned in H as (p & Hs & Hr).
  assert (Hd : parserInRange (flush p)).
  { apply flush_inRange. eapply scanLines_inRange; [|exact Hs].
    split; simpl; [intros m name c' [=] | intros tbs tn t' [=]]. }
  destruct Hd as [_ Hd].
  exact (Hd tables tname (Some t) Hr Ht t cname c eq_refl Hc).
Qed.

(** ** Blank lines and comments *)

Section Ignored.

Context `{RP : RuleParser}.

Lemma sameTables_refl p : sameTables p p.
Proof. repeat split. Qed.

Lemma flush_sameTables p q : sameTables p q -> sameTables (flush p) (flush q).
Proof.
  intros (Hr & Hn & Ht). unfold flush. rewrite Hn, Hr, Ht.
  destruct (negb (String.eqb (currentTableName q) "")); repeat split; auto.
Qed.

Lemma handleNewChain_sameTables p q text :
  sameTables p q -> sameTables (handleNewChain p text) (handleNewChain q text).
Proof.
  intros (Hr & Hn & Ht). unfold handleNewChain, sameTables. rewrite Ht.
  destruct (strings.Fields text) as [|f0 [|f1 [|f2 [|f3 fs]]]]; simpl; auto.
  destruct (parseCounters f2) as [[pk bt] [|]]; simpl; auto.
Qed.

Lemma handleRule_sameTables p q text :
  sameTables p q -> sameOutcome (handleRule p text) (handleRule q text).
Proof.
  intros (Hr & Hn & Ht). unfold handleRule, sameOutcome, sameTables. cbv zeta.
  rewrite Ht.
  destruct (negb (countersOk _)); [simpl; auto|].
  destruct (String.eqb (chain _) ""); [simpl; auto|].
  destruct (slices.ContainsFunc _ _); [auto|].
  destruct (currentTable q); simpl; auto.
Qed.

Lemma handleLine_sameTables p q raw :
  sameTables p q -> sameOutcome (handleLine p raw) (handleLine q raw).
Proof.
  intros H. rewrite !handleLine_eq. cbv zeta.
  set (text := strings.TrimSpace raw).
  assert (Hq : sameTables (with_line p (int_incr (line p)))
                          (with_line q (int_incr (line q)))) by exact H.
  destruct (String.eqb text "" || strings.HasPrefix text "#"); [exact Hq|].
  destruct (String.eqb text "COMMIT"); [exact (flush_sameTables _ _ Hq)|].
  destruct (strings.HasPrefix text "*").
  { destruct (flush_sameTables _ _ Hq) as (Hr & _ & Ht). repeat split; auto. }
  destruct (strings.HasPrefix text ":");
    [exact (handleNewChain_sameTables _ _ text Hq)|].
  destruct (strings.HasPrefix text "["); [exact (handleRule_sameTables _ _ text Hq)|].
  exact Hq.
Qed.

Lemma handleLine_ignored p raw :
  isIgnored raw = true -> handleLine p raw = Ok (with_line p (int_incr (line p))).
Proof.
  unfold isIgnored. intros H. rewrite handleLine_eq. cbv zeta. rewrite H.
  reflexivity.
Qed.

Lemma scanLines_meaningful lines : forall p q,
  sameTables p q ->
  sameOutcome (scanLines p lines) (scanLines q (meaningful lines)).
Proof.
  induction lines as [|raw rest IH]; intros p q H; [exact H|].
  cbn [scanLines meaningful List.filter].
  destruct (isIgnored raw) eqn:Hi; cbn [negb].
  - rewrite (handleLine_ignored p raw Hi). cbn [bind]. apply IH. exact H.
  - cbn [scanLines].
    pose proof (handleLine_sameTables p q raw H) as Hs.
    destruct (handleLine p raw) as [p1|m], (handleLine q raw) as [q1|m'];
      cbn [bind]; try contradiction; [apply IH; exact Hs | exact Hs].
Qed.

Lemma lineError_number n m raw :
  lineError n raw = None <-> lineError m raw = None.
Proof.
  unfold lineError. cbv zeta.
  destruct (String.eqb _ "" || strings.HasPrefix _ "#"); [tauto|].
  destruct (String.eqb _ "COMMIT"); [tauto|].
  destruct (strings.HasPrefix _ "*"); [tauto|].
  destruct (strings.HasPrefix _ ":").
  { destruct (strings.Fields _) as [|f0 [|f1 [|f2 [|f3 fs]]]];
      try (split; discriminate).
    destruct (countersResolved f2); [tauto | split; discriminate]. }
  destruct (strings.HasPrefix _ "["); [|split; discriminate].
  destruct (negb (countersOk _)); [split; discriminate|].
  destruct (String.eqb (chain _) ""); [split; discriminate | tauto].
Qed.

Lemma lineError_ignored n raw : isIgnored raw = true -> lineError n raw = None.
Proof. unfold isIgnored, lineError. cbv zeta. intros ->. reflexivity. Qed.

Lemma lineErrors_meaningful lines : forall n m,
  lineErrors n lines = [] <-> lineErrors m (meaningful lines) = [].
Proof.
  induction lines as [|raw rest IH]; intros n m; [tauto|].
  cbn [lineErrors meaningful List.filter].
  destruct (isIgnored raw) eqn:Hi; cbn [negb].
  - rewrite (lineError_ignored _ raw Hi). apply IH.
  - cbn [lineErrors].
    pose proof (lineError_number (int_incr n) (int_incr m) raw) as Hn.
    destruct (lineError (int_incr n) raw), (lineError (int_incr m) raw).
    + simpl. split; discriminate.
    + discriminate (proj2 Hn eq_refl).
    + discriminate (proj1 Hn eq_refl).
    + apply IH.
Qed.

End Ignored.

(** X5.  Blank lines and comments count for nothing but the line numbers:
    on an input and on the same input without them ParseIptablesSave either
    panics on both, or returns the same Tables value on both, with an error
    on both or on neither. *)
Theorem X5_blank_lines_and_comments_ignored `{RP : RuleParser} (r : Scanner) :
  agreeUpToErrors (ParseIptablesSave r)
                  (ParseIptablesSave (mkScanner (meaningful (Lines r)) (Err r))).
Proof.
  unfold ParseIptablesSave, agreeUpToErrors. cbn [Lines Err].
  pose proof (scanLines_meaningful (Lines r) parser_zero parser_zero
                (sameTables_refl _)) as Hs.
  pose proof (lineErrors_meaningful (Lines r) 0 0) as Hl.
  destruct (scanLines parser_zero (Lines r)) as [p|m] eqn:Hp,
           (scanLines parser_zero (meaningful (Lines r))) as [q|m'] eqn:Hq;
    cbn [bind sameOutcome] in *; try contradiction; [|exact Hs].
  apply scanLines_err in Hp as (_ & _ & Hep).
  apply scanLines_err in Hq as (_ & _ & Heq). simpl in Hep, Heq.
  destruct (flush_fields p) as [_ ->]. destruct (flush_fields q) as [_ ->].
  destruct (flush_sameTables p q Hs) as (Hr & _).
  destruct (err p) as [ep|], (err q) as [eq|].
  - split; [reflexivity | split; discriminate].
  - exfalso. destruct (proj1 Heq eq_refl) as [_ H].
    apply Hl in H. discriminate (proj2 Hep (conj eq_refl H)).
  - exfalso. destruct (proj1 Hep eq_refl) as [_ H].
    apply Hl in H. discriminate (proj2 Heq (conj eq_refl H)).
  - destruct (Err r); [split; [reflexivity | split; discriminate]|].
    split; [exact Hr | tauto].
Qed.

(** ** A run of rule lines *)

Section RuleLinesFacts.

Context `{RP : RuleParser}.

Lemma handleRule_insert q text m :
  ruleAccepted text = true -> currentTable q = Some m ->
  exists m',
    handleRule q text = Ok (with_currentTable q (Some m'))
    /\ forall c,
         Table_get (Some m') c
         = if String.eqb (chainOf text) c
           then mkChain (Policy (Table_get (Some m) c))
                        (Packets (Table_get (Some m) c))
                        (Bytes (Table_get (Some m) c))
                        (insertRule (Rules (Table_get (Some m) c)) (ruleOf text))
           else Table_get (Some m) c.
Proof.
  unfold ruleAccepted, handleRule, chainOf, ruleOf, insertRule. cbv zeta.
  intros Hacc Hm. apply andb_true_iff in Hacc as [Hok Hch].
  rewrite Hok. cbn [negb]. apply negb_true_iff in Hch. rewrite Hch, Hm.
  set (sub := runRuleParser (strings.Fields text)) in *.
  set (old := Table_get (Some m) (chain sub)).
  destruct (slices.ContainsFunc (Rules old) _) eqn:Hdup.
  - exists m. split.
    + destruct q; simpl in *. rewrite Hm. reflexivity.
    + intros c. destruct (String.eqb_spec (chain sub) c) as [<-|Hne]; [|reflexivity].
      fold old. rewrite Hdup. destruct old; reflexivity.
  - eexists. split; [reflexivity|].
    intros c. destruct (String.eqb_spec (chain sub) c) as [<-|Hne].
    + fold old. rewrite Hdup. simpl. rewrite lookup_insert_eq. reflexivity.
    + simpl. rewrite lookup_insert_ne by exact Hne. reflexivity.
Qed.

End RuleLinesFacts.

(** X6.  A run of accepted rule lines, scanned by a parser whose chain
    mapping is allocated, does not panic and rejects nothing; it leaves the
    result, the open table and the policy and the counters of every chain
    as they are, and the rules of each chain become the rules it had
    followed by the rules of the lines that are for it, in the order of the
    lines, each dropped if its text is that of a rule already there: of the
    lines with one text the first gives the rule its counters. *)
Theorem X6_rule_lines_accumulate `{RP : RuleParser} (lines : list string)
    (p : parser) (m : gmap string Chain) :
  forallb isRuleLine lines = true ->
  currentTable p = Some m ->
  exists p' m',
    scanLines p lines = Ok p'
    /\ result p' = result p
    /\ currentTableName p' = currentTableName p
    /\ err p' = err p
    /\ currentTable p' = Some m'
    /\ forall c,
         Table_get (Some m') c
         = mkChain (Policy (Table_get (Some m) c))
                   (Packets (Table_get (Some m) c))
                   (Bytes (Table_get (Some m) c))
                   (fold_left insertRule (rulesFor c lines)
                      (Rules (Table_get (Some m) c))).
Proof.
  revert p m. induction lines as [|raw rest IH]; intros p m Hall Hm.
  - exists p, m. cbn [scanLines rulesFor fold_left].
    repeat split; auto. intros c. destruct (Table_get (Some m) c); reflexivity.
  - cbn [forallb] in Hall. apply andb_true_iff in Hall as [Hraw Hrest].
    unfold isRuleLine in Hraw. apply andb_true_iff in Hraw as [Hpre Hacc].
    cbn [scanLines]. rewrite (handleLine_rule_line p raw Hpre).
    set (q := with_line p (int_incr (line p))).
    destruct (handleRule_insert q (strings.TrimSpace raw) m Hacc Hm)
      as (m1 & Hh & Hget).
    rewrite Hh. cbn [bind].
    destruct (IH (with_currentTable q (Some m1)) m1 Hrest eq_refl)
      as (p' & m' & Hs & Hr & Hn & He & Ht & Hfold).
    exists p', m'. split; [exact Hs|]. split; [exact Hr|].
    split; [exact Hn|]. split; [|split; [exact Ht|]].
    + exact He.
    + intros c. rewrite (Hfold c), (Hget c). cbn [rulesFor].
      destruct (String.eqb (chainOf (strings.TrimSpace raw)) c); reflexivity.
Qed.

(** ** The message of the aggregate error *)

Lemma append_assoc (a b c : string) : ((a ++ b) ++ c = a ++ (b ++ c))%string.
Proof.
  induction a as [|x a IH]; [reflexivity|].
  change (String x ((a ++ b) ++ c) = String x (a ++ (b ++ c)))%string.
  f_equal. exact IH.
Qed.

Lemma Join_snoc (l : list string) (x sep : string) :
  l <> [] ->
  strings.Join (l ++ [x]) sep = (strings.Join l sep ++ sep ++ x)%string.
Proof.
  induction l as [|a l IH]; [congruence|]. intros _.
  destruct l as [|b l].
  - reflexivity.
  - change (strings.Join ((a :: b :: l) ++ [x]) sep)
      with (a ++ sep ++ strings.Join ((b :: l) ++ [x]) sep)%string.
    rewrite IH by discriminate.
    change (strings.Join (a :: b :: l) sep)
      with (a ++ sep ++ strings.Join (b :: l) sep)%string.
    rewrite !append_assoc. reflexivity.
Qed.

Lemma messagePerError_Join (a : option error) (pe : ParseError) :
  messagePerError a -> messagePerError (errors.Join [a; Some (ErrParse pe)]).
Proof.
  destruct a as [x|]; simpl.
  - intros [Hne Hx]. split.
    + intros H. apply app_eq_nil in H as [_ [=]].
    + rewrite map_app. cbn [map]. rewrite Join_snoc, <- Hx.
      * reflexivity.
      * intros H. apply map_eq_nil in H. contradiction.
  - intros _. split; [discriminate | reflexivity].
Qed.

Lemma scanLines_messagePerError `{RP : RuleParser} lines : forall p p',
  messagePerError (err p) -> scanLines p lines = Ok p' ->
  messagePerError (err p').
Proof.
  induction lines as [|raw rest IH]; intros p p' Hp; simpl.
  - intros [= <-]. exact Hp.
  - intros H. apply bind_Ok in H as (p1 & H1 & H2).
    eapply IH; [|exact H2]. apply handleLine_err in H1 as [_ ->].
    destruct (lineError _ raw); [apply messagePerError_Join|]; exact Hp.
Qed.

(** X7.  The message of the error that ParseIptablesSave returns when lines
    were rejected has one line for each rejected line, in the order of the
    input: the message of the check that failed, the words at line, the
    number of the line, a colon and the text of the line without the white
    space around it.  With no rejected line the message is that of the
    error of the reader. *)
Theorem X7_error_message `{RP : RuleParser} (r : Scanner) (t : Tables)
    (e : error) :
  ParseIptablesSave r = Ok (t, Some e) ->
  error_Error e
  = match lineErrors 0 (Lines r) with
    | [] => match Err r with
            | Some re => error_Error re
            | None => ""
            end
    | es => strings.Join (map ParseError_Error es) newline
    end.
Proof.
  unfold ParseIptablesSave. intros H. apply bind_Ok in H as (p & Hs & H).
  destruct (flush_fields p) as [_ He]. rewrite He in H.
  pose proof (scanLines_messagePerError (Lines r) parser_zero p I Hs) as Hm.
  apply scanLines_err in Hs as (_ & Hpe & Hnil). simpl in Hpe, Hnil.
  destruct (err p) as [ep|].
  - injection H as <- <-. destruct Hm as [Hne Hm]. simpl in Hpe.
    rewrite Hm, Hpe. rewrite Hpe in Hne.
    destruct (lineErrors 0 (Lines r)); [contradiction | reflexivity].
  - destruct (proj1 Hnil eq_refl) as [_ ->].
    destruct (Err r); [|discriminate]. injection H as <- <-. reflexivity.
Qed.

(** ** The collector *)

Section CollectFacts.

Import exporter.

Variable tableOrder :
  gmap string (option (gmap string Chain)) -> list (string * option (gmap string Chain)).
Variable chainOrder : string -> gmap string Chain -> list (string * Chain).

Hypothesis tableOrder_visits :
  forall m, tableOrder m ≡ₚ map_to_list m.
Hypothesis chainOrder_visits :
  forall tableName m, chainOrder tableName m ≡ₚ map_to_list m.

Lemma elem_of_chainMetrics tn cn c x :
  x ∈ chainMetrics tn cn c
  <-> x = mkMetric defaultPacketsDesc CounterValue (OfUint64 (Packets c))
                   [tn; cn; Policy c]
      \/ x = mkMetric defaultBytesDesc CounterValue (OfUint64 (Bytes c))
                      [tn; cn; Policy c]
      \/ exists rule,
           rule ∈ Rules c
           /\ (x = mkMetric rulePacketsDesc CounterValue
                            (OfUint64 (Rule_Packets rule)) [tn; cn; Rule_Rule rule]
               \/ x = mkMetric ruleBytesDesc CounterValue
                               (OfUint64 (Rule_Bytes rule)) [tn; cn; Rule_Rule rule]).
Proof.
  unfold chainMetrics. rewrite !elem_of_cons, list_elem_of_bind.
  unfold ruleMetrics. setoid_rewrite elem_of_cons.
  setoid_rewrite elem_of_cons. setoid_rewrite elem_of_nil.
  split.
  - intros [H|[H|(rule & [H|[H|[]]] & Hin)]]; eauto 10.
  - intros [H|[H|(rule & Hin & [H|H])]]; eauto 10.
Qed.

Lemma elem_of_tableMetrics tn m x :
  x ∈ tableMetrics chainOrder tn (Some m)
  <-> exists cn c, m !! cn = Some c /\ x ∈ chainMetrics tn cn c.
Proof.
  unfold tableMetrics. rewrite list_elem_of_bind. split.
  - intros ([cn c] & Hx & Hin). rewrite chainOrder_visits in Hin.
    apply elem_of_map_to_list in Hin. eauto.
  - intros (cn & c & Hl & Hx). exists (cn, c). split; [exact Hx|].
    rewrite chainOrder_visits. apply elem_of_map_to_list. exact Hl.
Qed.

Lemma elem_of_tables tables x :
  x ∈ tableOrder tables ≫= (fun '(tableName, table) =>
                              tableMetrics chainOrder tableName table)
  <-> exists tn m cn c,
        tables !! tn = Some (Some m) /\ m !! cn = Some c
        /\ x ∈ chainMetrics tn cn c.
Proof.
  rewrite list_elem_of_bind. split.
  - intros ([tn t] & Hx & Hin). rewrite tableOrder_visits in Hin.
    apply elem_of_map_to_list in Hin.
    destruct t as [m|]; [|apply elem_of_nil in Hx; contradiction].
    apply elem_of_tableMetrics in Hx as (cn & c & Hl & Hx). eauto 10.
  - intros (tn & m & cn & c & Ht & Hl & Hx). exists (tn, Some m). split.
    + apply elem_of_tableMetrics. eauto.
    + rewrite tableOrder_visits. apply elem_of_map_to_list. exact Ht.
Qed.

End CollectFacts.

Example ValidString_ex :
  utf8.ValidString "-j ACCEPT" = true
  /\ utf8.ValidString (String "195" (String "169" "")) = true
  /\ utf8.ValidString (String "255" "") = false
  /\ utf8.ValidString (String "192" (String "128" "")) = false
  /\ utf8.ValidString (String "237" (String "160" (String "128" ""))) = false
  /\ utf8.ValidString (String "226" (String "130" "")) = false.
Proof. vm_compute. repeat split. Qed.

(** A rule line with a byte that is no UTF-8 is parsed without error; when
    its table is collected, the duration, the success and the two metrics
    of the policy are sent, and the call for the packets of the rule
    panics. *)
Example Collect_panic_ex :
  let text := ("-m comment --comment " ++ String "255" "" ++ " -j DROP")%string in
  let tables : gmap string (option (gmap string Chain)) :=
    {[ "filter" := Some {[ "INPUT" := mkChain "ACCEPT" 1 2 [mkRule 3 4 text] ]} ]} in
  ParseIptablesSave (RP := specRP)
    (mkScanner ["*filter"; ":INPUT ACCEPT [1:2]";
                ("[3:4] -A INPUT " ++ text)%string; "COMMIT"] None)
  = Ok (Some tables, None)
  /\ exporter.Collect map_to_list (fun _ => map_to_list) 7 (Some tables) None
     = ([exporter.mkMetric exporter.scrapeDurationDesc exporter.GaugeValue
           (exporter.Seconds 7) [];
         exporter.mkMetric exporter.scrapeSuccessDesc exporter.GaugeValue
           (exporter.Const 1) [];
         exporter.mkMetric exporter.defaultPacketsDesc exporter.CounterValue
           (exporter.OfUint64 1) ["filter"; "INPUT"; "ACCEPT"];
         exporter.mkMetric exporter.defaultBytesDesc exporter.CounterValue
           (exporter.OfUint64 2) ["filter"; "INPUT"; "ACCEPT"]], true).
Proof. vm_compute. split; reflexivity. Qed.

Lemma elem_of_calls
    (tableOrder : gmap string (option (gmap string Chain))
                  -> list (string * option (gmap string Chain)))
    (chainOrder : string -> gmap string Chain -> list (string * Chain))
    (duration : Z) (tables : gmap string (option (gmap string Chain)))
    (x : exporter.Metric) :
  (forall m, tableOrder m ≡ₚ map_to_list m) ->
  (forall tableName m, chainOrder tableName m ≡ₚ map_to_list m) ->
  x ∈ exporter.calls tableOrder chainOrder duration (Some tables) None
  <-> exporter.exported duration tables x.
Proof.
  intros Htab Hch. unfold exporter.calls, exporter.exported.
  rewrite !elem_of_cons, (elem_of_tables tableOrder chainOrder Htab Hch).
  setoid_rewrite elem_of_chainMetrics. reflexivity.
Qed.

Lemma sendEach_no_panic (cs : list exporter.Metric) :
  snd (exporter.sendEach cs) = false
  <-> Forall (fun m => exporter.accepted m = true) cs.
Proof.
  induction cs as [|m rest IH]; cbn [exporter.sendEach].
  - split; [constructor | reflexivity].
  - rewrite Forall_cons. destruct (exporter.accepted m).
    + destruct (exporter.sendEach rest) as [sent panicked]. simpl in *.
      rewrite IH. tauto.
    + simpl. split; [discriminate | intros [[=] _]].
Qed.

Lemma sendEach_all (cs : list exporter.Metric) :
  snd (exporter.sendEach cs) = false -> fst (exporter.sendEach cs) = cs.
Proof.
  induction cs as [|m rest IH]; cbn [exporter.sendEach]; [reflexivity|].
  destruct (exporter.accepted m); [|discriminate].
  destruct (exporter.sendEach rest) as [sent panicked]. simpl in *.
  intros H. rewrite (IH H). reflexivity.
Qed.

Lemma sendEach_prefix (cs : list exporter.Metric) :
  exists rest, cs = (fst (exporter.sendEach cs) ++ rest)%list.
Proof.
  induction cs as [|m cs' IH]; cbn [exporter.sendEach]; [exists []; reflexivity|].
  destruct (exporter.accepted m); [|exists (m :: cs'); reflexivity].
  destruct (exporter.sendEach cs') as [sent panicked]. simpl in *.
  destruct IH as [rest ->]. exists rest. reflexivity.
Qed.

Lemma sendEach_panic (cs : list exporter.Metric) :
  snd (exporter.sendEach cs) = true ->
  exists m, m ∈ cs /\ exporter.accepted m = false.
Proof.
  induction cs as [|m rest IH]; cbn [exporter.sendEach]; [discriminate|].
  destruct (exporter.accepted m) eqn:Hm.
  - destruct (exporter.sendEach rest) as [sent panicked]. simpl in *.
    intros H. destruct (IH H) as (x & Hx & Hacc). exists x. split; [right|]; auto.
  - intros _. exists m. split; [left | exact Hm].
Qed.

(** X8.  After a scrape without error, and whatever the order in which the
    maps are visited, Collect panics if and only if one of the strings of
    the Tables that become label values is not valid UTF-8: the name of a
    table that has a chain, the name or the policy of a chain, or the text
    of a rule.  When none is, Collect sends exactly the duration, the
    success with the value 1 and, for each chain of each table, the packets
    and the bytes of its policy, labelled with the table, the chain and the
    policy, and for each rule of the chain the packets and the bytes of the
    rule, labelled with the table, the chain and the text of the rule.  In
    any case what is sent is an initial part of that. *)
Theorem X8_collect_sends_every_chain_and_rule
    (tableOrder : gmap string (option (gmap string Chain))
                  -> list (string * option (gmap string Chain)))
    (chainOrder : string -> gmap string Chain -> list (string * Chain))
    (duration : Z) (tables : gmap string (option (gmap string Chain))) :
  (forall m, tableOrder m ≡ₚ map_to_list m) ->
  (forall tableName m, chainOrder tableName m ≡ₚ map_to_list m) ->
  let out := exporter.Collect tableOrder chainOrder duration (Some tables) None in
  (snd out = false <-> exporter.labelsValid tables)
  /\ (exporter.labelsValid tables ->
      forall x, x ∈ fst out <-> exporter.exported duration tables x)
  /\ (forall x, x ∈ fst out -> exporter.exported duration tables x).
Proof.
  intros Htab Hch out.
  set (cs := exporter.calls tableOrder chainOrder duration (Some tables) None).
  assert (Hin : forall x, x ∈ cs <-> exporter.exported duration tables x)
    by (intros x; apply elem_of_calls; assumption).
  assert (Hvalid : snd out = false <-> exporter.labelsValid tables).
  { unfold out, exporter.Collect. fold cs. rewrite sendEach_no_panic, Forall_forall.
    split.
    - intros Hacc tn m cn c Ht Hc.
      assert (Hp : exporter.accepted
                     (exporter.mkMetric exporter.defaultPacketsDesc
                        exporter.CounterValue (exporter.OfUint64 (Packets c))
                        [tn; cn; Policy c]) = true).
      { apply Hacc, Hin. right. right. exists tn, m, cn, c. auto. }
      unfold exporter.accepted in Hp. simpl in Hp.
      apply andb_true_iff in Hp as [Htn Hp]. apply andb_true_iff in Hp as [Hcn Hp].
      apply andb_true_iff in Hp as [Hpol _].
      repeat (split; [assumption|]). intros rule Hrule.
      assert (Hr : exporter.accepted
                     (exporter.mkMetric exporter.rulePacketsDesc
                        exporter.CounterValue
                        (exporter.OfUint64 (Rule_Packets rule))
                        [tn; cn; Rule_Rule rule]) = true).
      { apply Hacc, Hin. right. right. exists tn, m, cn, c.
        split; [exact Ht|]. split; [exact Hc|]. right. right. eauto. }
      unfold exporter.accepted in Hr. simpl in Hr.
      apply andb_true_iff in Hr as [_ Hr]. apply andb_true_iff in Hr as [_ Hr].
      apply andb_true_iff in Hr as [Hr _]. exact Hr.
    - intros Hv x Hx. apply Hin in Hx.
      destruct Hx as [-> | [-> | (tn & m & cn & c & Ht & Hc & Hx)]];
        [reflexivity | reflexivity |].
      destruct (Hv tn m cn c Ht Hc) as (Htn & Hcn & Hpol & Hrules).
      destruct Hx as [-> | [-> | (rule & Hrule & [-> | ->])]];
        unfold exporter.accepted; simpl;
        rewrite ?Htn, ?Hcn, ?Hpol, ?(Hrules rule Hrule); reflexivity. }
  split; [exact Hvalid|]. split.
  - intros Hv x. unfold out, exporter.Collect. fold cs.
    rewrite (sendEach_all cs); [apply Hin|]. apply Hvalid, Hv.
  - intros x Hx. apply Hin. unfold out, exporter.Collect in Hx. fold cs in Hx.
    destruct (sendEach_prefix cs) as [rest Hrest]. rewrite Hrest.
    apply elem_of_app. left. exact Hx.
Qed.

Lemma NoDup_fmap_bind {A B C} (g : B -> C) (f : A -> list B) (l : list A) :
  NoDup l ->
  (forall x, x ∈ l -> NoDup (g <$> f x)) ->
  (forall x1 x2 y1 y2,
     x1 ∈ l -> x2 ∈ l -> y1 ∈ f x1 -> y2 ∈ f x2 -> g y1 = g y2 -> x1 = x2) ->
  NoDup (g <$> (l ≫= f)).
Proof.
  induction 1 as [|x l Hx Hl IH]; intros Hf Hinj.
  - constructor.
  - rewrite bind_cons, fmap_app. apply NoDup_app. split; [apply Hf; left|].
    split.
    + intros k (y1 & -> & Hy1)%list_elem_of_fmap (y2 & Hk & Hy2)%list_elem_of_fmap.
      apply list_elem_of_bind in Hy2 as (x2 & Hy2 & Hx2).
      assert (x = x2) by (eapply Hinj; eauto; [left | right; exact Hx2]).
      subst x2. contradiction.
    + apply IH.
      * intros x' Hx'. apply Hf. right. exact Hx'.
      * intros x1 x2 y1 y2 H1 H2. apply Hinj; right; assumption.
Qed.

Lemma NoDup_fmap_elem {A B} (f : A -> B) (l : list A) (x y : A) :
  NoDup (f <$> l) -> x ∈ l -> y ∈ l -> f x = f y -> x = y.
Proof.
  induction l as [|a l IH]; [intros _ H; apply elem_of_nil in H; contradiction|].
  rewrite fmap_cons, NoDup_cons. intros [Ha Hl].
  intros [->|Hx]%elem_of_cons [->|Hy]%elem_of_cons Hf; auto.
  - destruct Ha. rewrite Hf. apply list_elem_of_fmap. eauto.
  - destruct Ha. rewrite <- Hf. apply list_elem_of_fmap. eauto.
Qed.

Lemma map_to_list_key_inj `{Countable K} {A} (m : gmap K A) (e1 e2 : K * A) :
  e1 ∈ map_to_list m -> e2 ∈ map_to_list m -> e1.1 = e2.1 -> e1 = e2.
Proof.
  destruct e1 as [k1 a1], e2 as [k2 a2]. simpl.
  intros H1%elem_of_map_to_list H2%elem_of_map_to_list ->. congruence.
Qed.

Section CollectKeys.

Import exporter.

Variable tableOrder :
  gmap string (option (gmap string Chain)) -> list (string * option (gmap string Chain)).
Variable chainOrder : string -> gmap string Chain -> list (string * Chain).

Hypothesis tableOrder_visits :
  forall m, tableOrder m ≡ₚ map_to_list m.
Hypothesis chainOrder_visits :
  forall tableName m, chainOrder tableName m ≡ₚ map_to_list m.

Lemma chainMetrics_labels tn cn c y :
  y ∈ chainMetrics tn cn c ->
  (exists l3, labelValues y = [tn; cn; l3])
  /\ desc y <> scrapeDurationDesc /\ desc y <> scrapeSuccessDesc.
Proof.
  intros [-> | [-> | (rule & _ & [-> | ->])]]%elem_of_chainMetrics; simpl;
    (split; [eauto | split; discriminate]).
Qed.

Lemma chainMetrics_keys tn cn c :
  NoDup (ruleTexts c) -> NoDup (metricKey <$> chainMetrics tn cn c).
Proof.
  intros Hd. unfold chainMetrics. rewrite !fmap_cons.
  assert (Hrules : forall k, k ∈ metricKey <$> (Rules c ≫= ruleMetrics tn cn) ->
                             k.1 = rulePacketsDesc \/ k.1 = ruleBytesDesc).
  { intros k (y & -> & Hy)%list_elem_of_fmap.
    apply list_elem_of_bind in Hy as (rule & Hy & _).
    unfold ruleMetrics in Hy.
    apply elem_of_cons in Hy as [->|Hy]; [auto|].
    apply elem_of_cons in Hy as [->|Hy]; [auto|].
    apply elem_of_nil in Hy. contradiction. }
  apply NoDup_cons. split.
  { intros [H|H]%elem_of_cons; [discriminate|].
    apply Hrules in H as [H|H]; discriminate. }
  apply NoDup_cons. split.
  { intros H. apply Hrules in H as [H|H]; discriminate. }
  apply NoDup_fmap_bind.
  - apply (NoDup_fmap_1 Rule_Rule). exact Hd.
  - intros rule _. unfold ruleMetrics. rewrite !fmap_cons, fmap_nil.
    apply NoDup_cons. split; [|apply NoDup_singleton].
    intros H%list_elem_of_singleton. discriminate.
  - intros r1 r2 y1 y2 H1 H2 Hy1 Hy2 Hk.
    apply (NoDup_fmap_elem Rule_Rule (Rules c)); [exact Hd | exact H1 | exact H2 |].
    unfold ruleMetrics in Hy1, Hy2.
    apply elem_of_cons in Hy1 as [->|Hy1];
      [|apply list_elem_of_singleton in Hy1 as ->];
    (apply elem_of_cons in Hy2 as [->|Hy2];
      [|apply list_elem_of_singleton in Hy2 as ->]);
    unfold metricKey in Hk; simpl in Hk; congruence.
Qed.

Lemma tableMetrics_keys tn (t : Table) :
  (forall m cn c, t = Some m -> m !! cn = Some c -> NoDup (ruleTexts c)) ->
  NoDup (metricKey <$> tableMetrics chainOrder tn t).
Proof.
  intros Hd. destruct t as [m|]; [|constructor]. unfold tableMetrics.
  apply NoDup_fmap_bind.
  - rewrite chainOrder_visits. apply NoDup_map_to_list.
  - intros [cn c] Hin. rewrite chainOrder_visits in Hin.
    apply elem_of_map_to_list in Hin. apply chainMetrics_keys. eauto.
  - intros [cn1 c1] [cn2 c2] y1 y2 H1 H2 Hy1 Hy2 Hk.
    rewrite chainOrder_visits in H1, H2.
    apply (map_to_list_key_inj m); [exact H1 | exact H2 |]. simpl.
    apply chainMetrics_labels in Hy1 as [(l1 & Hl1) _].
    apply chainMetrics_labels in Hy2 as [(l2 & Hl2) _].
    unfold metricKey in Hk. rewrite Hl1, Hl2 in Hk. congruence.
Qed.

Lemma tableMetrics_labels tn t y :
  y ∈ tableMetrics chainOrder tn t ->
  (exists cn l3, labelValues y = [tn; cn; l3])
  /\ desc y <> scrapeDurationDesc /\ desc y <> scrapeSuccessDesc.
Proof.
  destruct t as [m|]; [|intros H; apply elem_of_nil in H; contradiction].
  unfold tableMetrics. intros ([cn c] & Hy & _)%list_elem_of_bind.
  apply chainMetrics_labels in Hy as [(l3 & Hl) Hd]. eauto.
Qed.

Lemma calls_keys duration (tables : gmap string (option (gmap string Chain))) :
  (forall tn m cn c,
     tables !! tn = Some (Some m) -> m !! cn = Some c -> NoDup (ruleTexts c)) ->
  NoDup (metricKey <$> calls tableOrder chainOrder duration (Some tables) None).
Proof.
  intros Hd. unfold calls. rewrite !fmap_cons.
  set (body := tableOrder tables ≫= _).
  assert (Hbody : forall k, k ∈ metricKey <$> body ->
                            k.1 <> scrapeDurationDesc /\ k.1 <> scrapeSuccessDesc).
  { intros k (y & -> & Hy)%list_elem_of_fmap.
    apply list_elem_of_bind in Hy as ([tn t] & Hy & _).
    apply tableMetrics_labels in Hy as [_ Hy]. exact Hy. }
  apply NoDup_cons. split.
  { intros [H|H]%elem_of_cons; [discriminate|].
    apply Hbody in H as [H _]. apply H. reflexivity. }
  apply NoDup_cons. split.
  { intros H. apply Hbody in H as [_ H]. apply H. reflexivity. }
  apply NoDup_fmap_bind.
  - rewrite tableOrder_visits. apply NoDup_map_to_list.
  - intros [tn t] Hin. rewrite tableOrder_visits in Hin.
    apply elem_of_map_to_list in Hin. apply tableMetrics_keys.
    intros m cn c ->. eauto.
  - intros [tn1 t1] [tn2 t2] y1 y2 H1 H2 Hy1 Hy2 Hk.
    rewrite tableOrder_visits in H1, H2.
    apply (map_to_list_key_inj tables); [exact H1 | exact H2 |]. simpl.
    apply tableMetrics_labels in Hy1 as [(c1 & l1 & Hl1) _].
    apply tableMetrics_labels in Hy2 as [(c2 & l2 & Hl2) _].
    unfold metricKey in Hk. rewrite Hl1, Hl2 in Hk. congruence.
Qed.

End CollectKeys.

(** X9.  When the Tables that ParseIptablesSave returned are collected, no
    two of the metrics that Collect comes to make have the same descriptor
    and the same label values, in whatever order the maps are visited: the
    rules of a chain have distinct texts, and the chains and tables distinct
    names.  So it is for the metrics that Collect sends, whether it sends
    them all or panics on the way. *)
Theorem X9_collected_metrics_are_distinct `{RP : RuleParser}
    (tableOrder : gmap string (option (gmap string Chain))
                  -> list (string * option (gmap string Chain)))
    (chainOrder : string -> gmap string Chain -> list (string * Chain))
    (duration : Z) (r : Scanner)
    (tables : gmap string (option (gmap string Chain))) :
  (forall m, tableOrder m ≡ₚ map_to_list m) ->
  (forall tableName m, chainOrder tableName m ≡ₚ map_to_list m) ->
  ParseIptablesSave r = Ok (Some tables, None) ->
  NoDup (exporter.metricKey
           <$> exporter.calls tableOrder chainOrder duration (Some tables) None)
  /\ NoDup (exporter.metricKey
              <$> fst (exporter.Collect tableOrder chainOrder duration
                         (Some tables) None)).
Proof.
  intros Htab Hch Hparse.
  assert (Hall : NoDup (exporter.metricKey
                          <$> exporter.calls tableOrder chainOrder duration
                                (Some tables) None)).
  { apply calls_keys; [exact Htab | exact Hch|].
    intros tn m cn c Ht Hc.
    apply ParseIptablesSave_returned in Hparse as (p & Hs & Hr).
    assert (Hd : parser_distinct (flush p)).
    { apply flush_distinct. eapply scanLines_distinct; [|exact Hs].
      apply parser_zero_distinct. }
    destruct Hd as [_ Hd]. exact (Hd tables tn (Some m) Hr Ht m cn c eq_refl Hc). }
  split; [exact Hall|]. unfold exporter.Collect.
  destruct (sendEach_prefix
              (exporter.calls tableOrder chainOrder duration (Some tables) None))
    as [rest Hrest].
  rewrite Hrest, fmap_app in Hall. apply NoDup_app in Hall as [Hsent _].
  exact Hsent.
Qed.

Lemma forallb_false {A} (f : A -> bool) (l : list A) :
  forallb f l = false -> exists x, x ∈ l /\ f x = false.
Proof.
  induction l as [|a l IH]; [discriminate|]. cbn [forallb].
  destruct (f a) eqn:Ha.
  - intros H. destruct (IH H) as (x & Hx & Hf). exists x. split; [right|]; auto.
  - intros _. exists a. split; [left | exact Ha].
Qed.

(** X10.  Every metric that Collect comes to make has as many label values
    as its descriptor has label names, whatever the Tables, the error and
    the order of the maps: no call of MustNewConstMetric panics over the
    number of its label values, and if Collect panics it is over a label
    value that is not valid UTF-8.  After an error Collect makes and sends
    the duration and the success with the value 0, and nothing of the
    Tables. *)
Theorem X10_collect_label_arity
    (tableOrder : gmap string (option (gmap string Chain))
                  -> list (string * option (gmap string Chain)))
    (chainOrder : string -> gmap string Chain -> list (string * Chain))
    (duration : Z) (tables : Tables) (err : option error) :
  Forall (fun x => length (exporter.labelValues x)
                   = length (exporter.variableLabels (exporter.desc x)))
         (exporter.calls tableOrder chainOrder duration tables err)
  /\ (err <> None ->
      exporter.calls tableOrder chainOrder duration tables err
      = [exporter.mkMetric exporter.scrapeDurationDesc exporter.GaugeValue
           (exporter.Seconds duration) [];
         exporter.mkMetric exporter.scrapeSuccessDesc exporter.GaugeValue
           (exporter.Const 0) []])
  /\ (err <> None ->
      exporter.Collect tableOrder chainOrder duration tables err
      = ([exporter.mkMetric exporter.scrapeDurationDesc exporter.GaugeValue
            (exporter.Seconds duration) [];
          exporter.mkMetric exporter.scrapeSuccessDesc exporter.GaugeValue
            (exporter.Const 0) []], false))
  /\ (snd (exporter.Collect tableOrder chainOrder duration tables err) = true ->
      exists x label,
        x ∈ exporter.calls tableOrder chainOrder duration tables err
        /\ label ∈ exporter.labelValues x
        /\ utf8.ValidString label = false).
Proof.
  assert (Harity :
    Forall (fun x => length (exporter.labelValues x)
                     = length (exporter.variableLabels (exporter.desc x)))
           (exporter.calls tableOrder chainOrder duration tables err)).
  { unfold exporter.calls. apply Forall_cons. split; [reflexivity|].
    destruct err as [e|]; [repeat constructor|].
    apply Forall_cons. split; [reflexivity|].
    destruct tables as [m|]; [|constructor].
    apply Forall_forall. intros x ([tn t] & Hx & _)%list_elem_of_bind.
    destruct t as [mt|]; [|apply elem_of_nil in Hx; contradiction].
    unfold exporter.tableMetrics in Hx.
    apply list_elem_of_bind in Hx as ([cn c] & Hx & _).
    apply elem_of_chainMetrics in Hx as [-> | [-> | (rule & _ & [-> | ->])]];
      reflexivity. }
  split; [exact Harity|].
  split; [destruct err; [reflexivity | congruence]|].
  split; [destruct err; [reflexivity | congruence]|].
  unfold exporter.Collect. intros Hp.
  apply sendEach_panic in Hp as (x & Hx & Hacc).
  rewrite Forall_forall in Harity. specialize (Harity x Hx).
  unfold exporter.accepted in Hacc. rewrite Harity, Nat.eqb_refl in Hacc.
  apply forallb_false in Hacc as (label & Hl & Hv). eauto.
Qed.

(** ** The line numbers of the errors *)

Section LineNumbers.

Context `{RP : RuleParser}.

Lemma lineError_fields n raw e :
  lineError n raw = Some e ->
  LineNumber e = n /\ LineText e = strings.TrimSpace raw.
Proof.
  unfold lineError. cbv zeta.
  destruct (String.eqb _ "" || strings.HasPrefix _ "#"); [discriminate|].
  destruct (String.eqb _ "COMMIT"); [discriminate|].
  destruct (strings.HasPrefix _ "*"); [discriminate|].
  destruct (strings.HasPrefix _ ":").
  { destruct (strings.Fields _) as [|f0 [|f1 [|f2 [|f3 fs]]]];
      try (intros [= <-]; auto).
    destruct (countersResolved f2); [discriminate | intros [= <-]; auto]. }
  destruct (strings.HasPrefix _ "["); [|intros [= <-]; auto].
  destruct (negb (countersOk _)); [intros [= <-]; auto|].
  destruct (String.eqb (chain _) ""); [intros [= <-]; auto | discriminate].
Qed.

Lemma lineErrors_numbers lines : forall n e,
  0 <= n -> n + Z.of_nat (length lines) < 2 ^ 63 ->
  e ∈ lineErrors n lines ->
  exists (i : nat) raw,
    lines !! i = Some raw
    /\ lineError (n + Z.of_nat i + 1) raw = Some e.
Proof.
  induction lines as [|raw rest IH]; intros n e Hn Hlen;
    cbn [lineErrors length] in *.
  - intros H. apply elem_of_nil in H. contradiction.
  - assert (Hi : int_incr n = n + 1).
    { unfold int_incr. destruct (Z.eqb_spec n (2 ^ 63 - 1)); [lia | reflexivity]. }
    rewrite Hi. intros [H|H]%elem_of_app.
    + exists 0%nat, raw. split; [reflexivity|].
      replace (n + Z.of_nat 0 + 1) with (n + 1) by lia.
      destruct (lineError (n + 1) raw) as [e'|].
      * apply list_elem_of_singleton in H as ->. reflexivity.
      * apply elem_of_nil in H. contradiction.
    + destruct (IH (n + 1) e ltac:(lia) ltac:(lia) H) as (i & raw' & Hl & He).
      exists (S i), raw'. split; [exact Hl|].
      replace (n + Z.of_nat (S i) + 1) with (n + 1 + Z.of_nat i + 1) by lia.
      exact He.
Qed.

End LineNumbers.

(** X11.  The errors that ParseIptablesSave returns when lines were
    rejected carry the numbers and the texts of those lines: on an input of
    fewer than 2^63 lines each of them comes from a line of the input, is
    numbered with the position of that line counted from 1, blank lines and
    comments counted as well, and carries the text of the line without the
    white space around it. *)
Theorem X11_errors_locate_their_lines `{RP : RuleParser} (r : Scanner)
    (t : Tables) (e : error) (pe : ParseError) :
  Z.of_nat (length (Lines r)) < 2 ^ 63 ->
  lineErrors 0 (Lines r) <> [] ->
  ParseIptablesSave r = Ok (t, Some e) ->
  pe ∈ parseErrors e ->
  exists (i : nat) raw,
    Lines r !! i = Some raw
    /\ LineNumber pe = Z.of_nat i + 1
    /\ LineText pe = strings.TrimSpace raw
    /\ lineError (Z.of_nat i + 1) raw = Some pe.
Proof.
  intros Hlen Hrej H Hin. unfold ParseIptablesSave in H.
  apply bind_Ok in H as (p & Hs & H).
  destruct (flush_fields p) as [_ He]. rewrite He in H.
  apply scanLines_err in Hs as (_ & Hpe & Hnil). simpl in Hpe, Hnil.
  destruct (err p) as [ep|].
  - injection H as <- <-. simpl in Hpe. rewrite Hpe in Hin.
    destruct (lineErrors_numbers (Lines r) 0 pe ltac:(lia) ltac:(lia) Hin)
      as (i & raw & Hl & Hle).
    rewrite Z.add_0_l in Hle.
    destruct (lineError_fields _ _ _ Hle) as [Hn Ht].
    exists i, raw. auto.
  - destruct (proj1 Hnil eq_refl) as [_ Hno]. contradiction.
Qed.

(** ** Each table is parsed on its own *)

Section TableBody.

Context `{RP : RuleParser}.

Lemma handleLine_body p q raw :
  isBodyLine raw = true -> sameOpen p q ->
  match handleLine p raw, handleLine q raw with
  | Ok p', Ok q' =>
      sameOpen p' q' /\ result p' = result p /\ result q' = result q
      /\ currentTableName p' = currentTableName p
  | Panic m, Panic m' => m = m'
  | _, _ => False
  end.
Proof.
  unfold isBodyLine. cbv zeta. intros Hb [Hn Ht]. rewrite !handleLine_eq. cbv zeta.
  set (text := strings.TrimSpace raw) in *.
  apply negb_true_iff, orb_false_iff in Hb as [Hc Hs]. rewrite Hc, Hs.
  destruct (String.eqb text "" || strings.HasPrefix text "#");
    [repeat split; assumption|].
  destruct (strings.HasPrefix text ":").
  { unfold handleNewChain, sameOpen. simpl. rewrite Ht.
    destruct (strings.Fields text) as [|f0 [|f1 [|f2 [|f3 fs]]]]; simpl; auto 10.
    destruct (parseCounters f2) as [[pk bt] [|]]; simpl; auto 10. }
  destruct (strings.HasPrefix text "["); [|repeat split; assumption].
  unfold handleRule, sameOpen. cbv zeta. simpl. rewrite Ht.
  destruct (negb (countersOk _)); [simpl; auto 10|].
  destruct (String.eqb (chain _) ""); [simpl; auto 10|].
  destruct (slices.ContainsFunc _ _); [simpl; auto 10|].
  destruct (currentTable q); simpl; auto 10.
Qed.

Lemma scanLines_body body : forall p q,
  forallb isBodyLine body = true -> sameOpen p q ->
  match scanLines p body, scanLines q body with
  | Ok p', Ok q' =>
      sameOpen p' q' /\ result p' = result p /\ result q' = result q
      /\ currentTableName p' = currentTableName p
  | Panic m, Panic m' => m = m'
  | _, _ => False
  end.
Proof.
  induction body as [|raw rest IH]; intros p q Hall Hpq; cbn [scanLines forallb] in *.
  - auto.
  - apply andb_true_iff in Hall as [Hraw Hrest].
    pose proof (handleLine_body p q raw Hraw Hpq) as H1.
    destruct (handleLine p raw) as [p1|m], (handleLine q raw) as [q1|m'];
      cbn [bind]; try contradiction; [|exact H1].
    destruct H1 as (Ho & Hr1 & Hr2 & Hn1).
    specialize (IH p1 q1 Hrest Ho).
    destruct (scanLines p1 rest), (scanLines q1 rest); try contradiction;
      [|exact IH].
    destruct IH as (Ho' & Hr1' & Hr2' & Hn'). repeat split; try apply Ho'; congruence.
Qed.

End TableBody.

(** X12.  A table is parsed on its own.  Let a table header open a table
    while another table is open or no chain mapping is allocated, and let
    lines follow that are neither table headers nor COMMIT.  Then whatever
    flushes next, COMMIT, the next header or the end of the input, commits
    under the name of the header exactly the chain mapping that these lines
    build when a parser scans them that has just opened the table and seen
    nothing else; the tables committed before stay as they are, and the scan
    panics if and only if that parser does. *)
Theorem X12_table_parsed_on_its_own `{RP : RuleParser} (p : parser)
    (header : string) (body : list string) :
  let name := strings.drop 1 (strings.TrimSpace header) in
  strings.HasPrefix (strings.TrimSpace header) "*" = true ->
  name <> "" ->
  forallb isBodyLine body = true ->
  currentTableName p <> "" \/ currentTable p = None ->
  match scanLines (justOpened name) body with
  | Ok alone =>
      exists p',
        scanLines p (header :: body) = Ok p'
        /\ result (flush p')
           = Some (<[name := currentTable alone]> (default ∅ (result (flush p))))
  | Panic msg => scanLines p (header :: body) = Panic msg
  end.
Proof.
  intros name Hpre Hname Hbody Hstate.
  cbn [scanLines]. rewrite (handleLine_table_header p header Hpre). cbn [bind].
  fold name.
  set (q := with_currentTableName (flush (with_line p (int_incr (line p)))) name).
  assert (Hq : sameOpen q (justOpened name)).
  { split; [reflexivity|]. unfold q. simpl. unfold flush. simpl.
    destruct Hstate as [Hn|Hn].
    - apply String.eqb_neq in Hn. rewrite Hn. reflexivity.
    - destruct (negb (String.eqb (currentTableName p) "")); [reflexivity | exact Hn]. }
  assert (Hres : result q = result (flush p)).
  { unfold q. simpl. apply result_flush_with_line. }
  pose proof (scanLines_body body q (justOpened name) Hbody Hq) as H.
  destruct (scanLines q body) as [p'|m], (scanLines (justOpened name) body) as [alone|m'];
    try contradiction; [|congruence].
  destruct H as ([_ Ht] & Hr & _ & Hn).
  change (currentTableName q) with name in Hn.
  exists p'. split; [reflexivity|].
  assert (Hopen : currentTableName p' <> "") by (rewrite Hn; exact Hname).
  rewrite (flush_open p' Hopen). simpl. rewrite Hn, Ht, Hr, Hres. reflexivity.
Qed.

(** ** White space around a line *)

Lemma spaceWidth_trimLeft s : forall k, strings.spaceWidth (strings.trimLeft k s) = 0%nat.
Proof.
  induction s as [|c s IH]; intros k; [reflexivity|].
  cbn [strings.trimLeft]. destruct k as [|k]; [|apply IH].
  destruct (strings.spaceWidth (String c s)) as [|w] eqn:Hw; [exact Hw | apply IH].
Qed.

Lemma spaceWidthRev_trimLeftRev r : forall k,
  strings.spaceWidthRev (strings.trimLeftRev k r) = 0%nat.
Proof.
  induction r as [|c r IH]; intros k; [reflexivity|].
  cbn [strings.trimLeftRev]. destruct k as [|k]; [|apply IH].
  destruct (strings.spaceWidthRev (String c r)) as [|w] eqn:Hw; [exact Hw | apply IH].
Qed.

Lemma trimLeft_fixed s : strings.spaceWidth s = 0%nat -> strings.trimLeft 0 s = s.
Proof.
  destruct s as [|c s]; [reflexivity|]. cbn [strings.trimLeft]. intros ->.
  reflexivity.
Qed.

Lemma trimLeftRev_fixed r :
  strings.spaceWidthRev r = 0%nat -> strings.trimLeftRev 0 r = r.
Proof.
  destruct r as [|c r]; [reflexivity|]. cbn [strings.trimLeftRev]. intros ->.
  reflexivity.
Qed.

Lemma trimLeftRev_suffix r : forall k,
  exists pre, r = (pre ++ strings.trimLeftRev k r)%string.
Proof.
  induction r as [|c r IH]; intros k; [exists ""; reflexivity|].
  cbn [strings.trimLeftRev].
  assert (Hdrop : forall j, exists pre,
            String c r = (pre ++ strings.trimLeftRev j r)%string).
  { intros j. destruct (IH j) as [pre Hpre]. exists (String c pre).
    change (String c r = String c (pre ++ strings.trimLeftRev j r)%string).
    f_equal. exact Hpre. }
  destruct k as [|k]; [|apply Hdrop].
  destruct (strings.spaceWidthRev (String c r)) as [|w];
    [exists ""; reflexivity | apply Hdrop].
Qed.

Lemma append_nil_r (s : string) : (s ++ "")%string = s.
Proof.
  induction s as [|c s IH]; [reflexivity|].
  change (String c (s ++ "")%string = String c s). f_equal. exact IH.
Qed.

Lemma rev_onto_spec s : forall acc,
  strings.rev_onto s acc = (strings.rev s ++ acc)%string.
Proof.
  unfold strings.rev. induction s as [|c s IH]; intros acc; [reflexivity|].
  cbn [strings.rev_onto]. rewrite (IH (String c acc)), (IH (String c "")).
  rewrite append_assoc. reflexivity.
Qed.

Lemma rev_app a b : strings.rev (a ++ b)%string = (strings.rev b ++ strings.rev a)%string.
Proof.
  induction a as [|c a IH].
  - simpl. rewrite append_nil_r. reflexivity.
  - change (strings.rev (String c a ++ b)%string)
      with (strings.rev_onto (a ++ b)%string (String c "")).
    change (strings.rev (String c a)) with (strings.rev_onto a (String c "")).
    rewrite !rev_onto_spec, IH, append_assoc. reflexivity.
Qed.

Lemma rev_involutive s : strings.rev (strings.rev s) = s.
Proof.
  induction s as [|c s IH]; [reflexivity|].
  change (strings.rev (String c s)) with (strings.rev_onto s (String c "")).
  rewrite rev_onto_spec, rev_app, IH. reflexivity.
Qed.

Lemma spaceWidth_prefix a b :
  strings.spaceWidth (a ++ b)%string = 0%nat -> strings.spaceWidth a = 0%nat.
Proof.
  destruct a as [|c0 [|c1 [|c2 a]]]; [reflexivity| | |intros H; exact H].
  - simpl. destruct (strings.asciiSpace c0); [discriminate | reflexivity].
  - simpl. destruct (strings.asciiSpace c0); [discriminate|].
    destruct (_ && _); [discriminate | reflexivity].
Qed.

(** strings.TrimSpace leaves a trimmed string as it is. *)
Lemma TrimSpace_idempotent s :
  strings.TrimSpace (strings.TrimSpace s) = strings.TrimSpace s.
Proof.
  unfold strings.TrimSpace.
  set (t := strings.trimLeft 0 s).
  set (u := strings.trimLeftRev 0 (strings.rev t)).
  assert (Hu : strings.spaceWidthRev u = 0%nat) by apply spaceWidthRev_trimLeftRev.
  destruct (trimLeftRev_suffix (strings.rev t) 0) as [pre Hpre]. fold u in Hpre.
  assert (Ht : t = (strings.rev u ++ strings.rev pre)%string).
  { rewrite <- rev_app, <- Hpre, rev_involutive. reflexivity. }
  assert (Hw : strings.spaceWidth (strings.rev u) = 0%nat).
  { apply (spaceWidth_prefix _ (strings.rev pre)). rewrite <- Ht.
    apply spaceWidth_trimLeft. }
  rewrite (trimLeft_fixed _ Hw), rev_involutive, (trimLeftRev_fixed _ Hu).
  reflexivity.
Qed.

(** X13.  The white space around a line counts for nothing: stripping it
    from every line of the input changes neither the Tables nor the errors,
    line numbers and line texts included, nor whether the parser panics. *)
Theorem X13_surrounding_white_space_ignored `{RP : RuleParser} (r : Scanner) :
  ParseIptablesSave (mkScanner (map strings.TrimSpace (Lines r)) (Err r))
  = ParseIptablesSave r.
Proof.
  unfold ParseIptablesSave. cbn [Lines Err]. f_equal.
  generalize parser_zero. induction (Lines r) as [|raw rest IH]; intros p;
    [reflexivity|].
  cbn [map scanLines].
  assert (Hh : handleLine p (strings.TrimSpace raw) = handleLine p raw).
  { unfold handleLine. cbv zeta. rewrite TrimSpace_idempotent. reflexivity. }
  rewrite Hh. destruct (handleLine p raw) as [p1|m]; cbn [bind];
    [apply IH | reflexivity].
Qed.

(** ** The chains that the headers declare *)

Section DeclaredChains.

Context `{RP : RuleParser}.

Lemma hasChain_insert (t : Table) name c k :
  hasChain t k \/ k = name ->
  hasChain (Some (<[name := c]> (default ∅ t))) k.
Proof.
  intros H. unfold hasChain. destruct (decide (name = k)) as [->|Hne].
  - eexists _, _. split; [reflexivity|]. apply lookup_insert_eq.
  - destruct H as [(m & c' & -> & Hl)|Hk]; [|congruence].
    eexists _, _. split; [reflexivity|].
    rewrite lookup_insert_ne by exact Hne. exact Hl.
Qed.

Lemma handleLine_keeps_chains p raw p' :
  isBodyLine raw = true -> handleLine p raw = Ok p' ->
  (forall k, hasChain (currentTable p) k -> hasChain (currentTable p') k)
  /\ (strings.HasPrefix (strings.TrimSpace raw) ":" = true ->
      headerAccepted (strings.TrimSpace raw) = true ->
      hasChain (currentTable p') (headerName (strings.TrimSpace raw))).
Proof.
  unfold isBodyLine. cbv zeta. intros Hb. rewrite handleLine_eq. cbv zeta.
  set (text := strings.TrimSpace raw) in *.
  apply negb_true_iff, orb_false_iff in Hb as [Hc Hs]. rewrite Hc, Hs.
  destruct (String.eqb text "" || strings.HasPrefix text "#") eqn:Hblank.
  { intros [= <-]. split; [auto|]. intros Hpre.
    apply HasPrefix_char in Hpre as [s' Hs']. rewrite Hs' in Hblank.
    discriminate. }
  destruct (strings.HasPrefix text ":").
  { intros [= <-]. unfold handleNewChain, headerAccepted, headerName, countersResolved.
    destruct (strings.Fields text) as [|f0 [|f1 [|f2 [|f3 fs]]]];
      try (split; [auto | discriminate]).
    destruct (parseCounters f2) as [[pk bt] [|]]; [|split; [auto | discriminate]].
    simpl. split; intros; apply (hasChain_insert (currentTable p)); auto. }
  destruct (strings.HasPrefix text "["); [|intros [= <-]; split; [auto | discriminate]].
  unfold handleRule. cbv zeta.
  destruct (negb (countersOk _)); [intros [= <-]; split; [auto | discriminate]|].
  destruct (String.eqb (chain _) ""); [intros [= <-]; split; [auto | discriminate]|].
  destruct (slices.ContainsFunc _ _); [intros [= <-]; split; [auto | discriminate]|].
  simpl. destruct (currentTable p) as [m|] eqn:Hm; [|discriminate].
  intros [= <-]. split; [|discriminate]. simpl.
  intros k Hk. apply (hasChain_insert (Some m)). left. exact Hk.
Qed.

End DeclaredChains.

(** X14.  Among lines that are neither table headers nor COMMIT no chain is
    lost: after them the chain mapping has the chains it had, and a chain
    for every accepted chain header among the lines, under the name of the
    header, rules or no rules. *)
Theorem X14_declared_chains_are_kept `{RP : RuleParser} (body : list string)
    (p p' : parser) :
  forallb isBodyLine body = true ->
  scanLines p body = Ok p' ->
  (forall k, hasChain (currentTable p) k -> hasChain (currentTable p') k)
  /\ (forall raw,
        raw ∈ body ->
        strings.HasPrefix (strings.TrimSpace raw) ":" = true ->
        headerAccepted (strings.TrimSpace raw) = true ->
        hasChain (currentTable p') (headerName (strings.TrimSpace raw))).
Proof.
  revert p. induction body as [|l rest IH]; intros p Hall Hs;
    cbn [scanLines forallb] in *.
  - injection Hs as <-. split; [auto|]. intros raw H. apply elem_of_nil in H.
    contradiction.
  - apply andb_true_iff in Hall as [Hl Hrest].
    apply bind_Ok in Hs as (p1 & H1 & H2).
    destruct (handleLine_keeps_chains p l p1 Hl H1) as [Hk1 Hh1].
    destruct (IH p1 Hrest H2) as [Hk2 Hh2]. split; [auto|].
    intros raw [->|Hin]%elem_of_cons Hpre Hacc; auto.
Qed.

(** ** The further theorems at concrete inputs *)

Lemma X1_witness :
  (exists res, ParseIptablesSave (mkScanner scenario3 None) = Ok res)
  /\ ParseIptablesSave (mkScanner rule_before_header None)
     = Panic "assignment to entry in nil map".
Proof.
  split.
  - apply (proj1 (X1_returns_iff_crash_free (RP := specRP) (mkScanner scenario3 None))).
    vm_compute. reflexivity.
  - apply (proj2 (X1_returns_iff_crash_free (RP := specRP) (mkScanner rule_before_header None))).
    vm_compute. reflexivity.
Defined.

Lemma X2_witness :
  exists e,
    ParseIptablesSave (mkScanner scenario4 None) = Ok (None, Some e)
    /\ parseErrors e
       = [mkParseError "expected 3 fields" 2 ":INPUT ACCEPT";
          mkParseError "unhandled line" 3 "bogus"].
Proof.
  destruct (X2_one_error_per_rejected_line (RP := specRP) (mkScanner scenario4 None))
    as (e & H & He).
  - vm_compute. reflexivity.
  - vm_compute. discriminate.
  - exists e. split; [exact H|]. rewrite He. vm_compute. reflexivity.
Defined.

Lemma X3_witness :
  "nat" ∈ headerNames scenario3 /\ "mangle" ∉ headerNames scenario3.
Proof.
  pose proof (X3_tables_are_the_declared_ones (RP := specRP)
                (mkScanner scenario3 None) (Some scenario3_tables)
                ltac:(vm_compute; reflexivity)) as (Hk & _ & _).
  split.
  - apply Hk. eexists _, _. split; [reflexivity | vm_compute; reflexivity].
  - intros Hin. apply Hk in Hin as (m & t & [= <-] & Hl).
    revert Hl. vm_compute. discriminate.
Defined.

Lemma X4_witness : 0 <= 10 < 2 ^ 64 /\ 0 <= 500 < 2 ^ 64.
Proof.
  apply (X4_chain_counters_in_range (RP := specRP)
           (mkScanner scenario1 None) scenario1_tables
           None "filter" "INPUT"
           {[ "INPUT" :=
                mkChain "ACCEPT" 10 500
                  [mkRule 10 500 "-p tcp -m tcp --dport 22 -j ACCEPT"] ]}
           (mkChain "ACCEPT" 10 500
              [mkRule 10 500 "-p tcp -m tcp --dport 22 -j ACCEPT"]));
    vm_compute; reflexivity.
Defined.

Lemma X6_witness :
  exists p' m',
    scanLines filter_open rule_run = Ok p'
    /\ currentTable p' = Some m'
    /\ Table_get (Some m') "INPUT"
       = mkChain "ACCEPT" 1 2
           [mkRule 5 6 "-j DROP"; mkRule 7 70 "-j ACCEPT"].
Proof.
  destruct (X6_rule_lines_accumulate (RP := specRP) rule_run filter_open
              {[ "INPUT" := mkChain "ACCEPT" 1 2 [mkRule 5 6 "-j DROP"] ]}
              ltac:(vm_compute; reflexivity) eq_refl)
    as (p' & m' & Hs & _ & _ & _ & Ht & Hfold).
  exists p', m'. split; [exact Hs|]. split; [exact Ht|].
  rewrite (Hfold "INPUT"). vm_compute. reflexivity.
Defined.

Lemma X7_witness :
  error_Error scenario4_error
  = strings.Join ["expected 3 fields at line 2: :INPUT ACCEPT";
                  "unhandled line at line 3: bogus"] newline.
Proof.
  rewrite (X7_error_message (RP := specRP) (mkScanner scenario4 None) None
             scenario4_error
             ltac:(vm_compute; reflexivity)).
  vm_compute. reflexivity.
Defined.

Lemma X8_witness :
  exporter.mkMetric exporter.ruleBytesDesc exporter.CounterValue
    (exporter.OfUint64 500)
    ["filter"; "INPUT"; "-p tcp -m tcp --dport 22 -j ACCEPT"]
  ∈ fst (exporter.Collect map_to_list (fun _ => map_to_list) 7
           (Some scenario1_tables) None).
Proof.
  destruct (X8_collect_sends_every_chain_and_rule
              map_to_list (fun _ => map_to_list) 7 scenario1_tables
              ltac:(intros m; reflexivity) ltac:(intros tableName m; reflexivity))
    as (Hpanic & Hsent & _).
  apply (Hsent (proj1 Hpanic ltac:(vm_compute; reflexivity))).
  right. right.
  exists "filter",
         {[ "INPUT" :=
              mkChain "ACCEPT" 10 500
                [mkRule 10 500 "-p tcp -m tcp --dport 22 -j ACCEPT"] ]},
         "INPUT",
         (mkChain "ACCEPT" 10 500
            [mkRule 10 500 "-p tcp -m tcp --dport 22 -j ACCEPT"]).
  split; [vm_compute; reflexivity|]. split; [vm_compute; reflexivity|].
  right. right. eexists. split; [left|]. right. reflexivity.
Defined.

Lemma X9_witness :
  NoDup (exporter.metricKey
           <$> fst (exporter.Collect map_to_list (fun _ => map_to_list) 7
                      (Some scenario1_tables) None)).
Proof.
  apply (X9_collected_metrics_are_distinct (RP := specRP)
           map_to_list (fun _ => map_to_list) 7
           (mkScanner scenario2 None) scenario1_tables).
  - intros m. reflexivity.
  - intros tableName m. reflexivity.
  - vm_compute. reflexivity.
Defined.

Lemma X11_witness :
  exists (i : nat) raw,
    scenario4 !! i = Some raw
    /\ LineNumber (mkParseError "unhandled line" 3 "bogus") = Z.of_nat i + 1
    /\ LineText (mkParseError "unhandled line" 3 "bogus") = strings.TrimSpace raw.
Proof.
  destruct (X11_errors_locate_their_lines (RP := specRP)
              (mkScanner scenario4 None) None
              scenario4_error (mkParseError "unhandled line" 3 "bogus"))
    as (i & raw & Hl & Hn & Ht & _).
  - vm_compute. reflexivity.
  - vm_compute. discriminate.
  - vm_compute. reflexivity.
  - vm_compute. right. left.
  - exists i, raw. auto.
Defined.

Lemma X12_witness :
  exists p',
    scanLines filter_open ("*nat" :: nat_body) = Ok p'
    /\ result (flush p')
       = Some {[ "filter" :=
                   Some {[ "INPUT" := mkChain "ACCEPT" 1 2 [mkRule 5 6 "-j DROP"] ]};
                 "nat" :=
                   Some {[ "PREROUTING" :=
                             mkChain "ACCEPT" 3 4 [mkRule 5 6 "-j DNAT"] ]} ]}.
Proof.
  pose proof (X12_table_parsed_on_its_own (RP := specRP) filter_open "*nat"
                nat_body eq_refl ltac:(discriminate)
                ltac:(vm_compute; reflexivity) ltac:(left; discriminate)) as H.
  assert (Ha : scanLines (justOpened (strings.drop 1 (strings.TrimSpace "*nat")))
                 nat_body
               = Ok (mkParser None "nat"
                       (Some {[ "PREROUTING" :=
                                  mkChain "ACCEPT" 3 4 [mkRule 5 6 "-j DNAT"] ]})
                       3 None))
    by (vm_compute; reflexivity).
  rewrite Ha in H. destruct H as (p' & Hs & Hr). exists p'.
  split; [exact Hs|]. rewrite Hr. vm_compute. reflexivity.
Defined.

Lemma X14_witness :
  exists p',
    scanLines (justOpened "nat") nat_body = Ok p'
    /\ hasChain (currentTable p') "PREROUTING".
Proof.
  eexists. split; [vm_compute; reflexivity|].
  refine (proj2 (X14_declared_chains_are_kept (RP := specRP) nat_body
                   (justOpened "nat") _
                   ltac:(vm_compute; reflexivity) ltac:(vm_compute; reflexivity))
                ":PREROUTING ACCEPT [3:4]" _ eq_refl
                ltac:(vm_compute; reflexivity)).
  right. left.
Defined.
